(** * igo: the message codec of the Go kernel for IPython

    A shallow embedding of the message file of package [igo]: the
    structures [MsgHeader] and [ComposedMsg], the decoder
    [WireMsgToComposedMsg], the encoder [ComposedMsg.ToWireMsg], the frames
    of [SendResponse] and the factory [NewMsg].

    Go values are modelled as the code has them: a [[]byte] is a list of
    bytes and a Go [string] a [string]; a [[][]byte] is a record of its
    elements in range and of what its array holds between [len] and [cap];
    a [map[string]interface{}] that may be nil is an optional [gmap]
    (behind an address where the sharing of the map matters); a call
    returns or panics.

    The libraries the file calls are modelled from their documentation
    and sources: [encoding/hex], [crypto/sha256] and [crypto/hmac] and
    [gouuid] as functions that compute; [encoding/json] as an interface,
    [JsonLib], over which the properties of the codec are stated, and as
    one instance of it, [gojson.lib], on which they are run. *)

From Stdlib Require Import ZArith List Bool Lia.
From Stdlib Require Import Strings.Byte Strings.Ascii Strings.String.
From stdpp Require Import base option list gmap strings.

Import ListNotations.
Local Open Scope Z_scope.

(** ** Bytes *)

(** [[]byte]; a [nil] slice and an empty one are both the empty list (the
    code only takes their length, ranges over them and compares them). *)
Abbreviation bytes := (list byte).

#[global] Instance byte_eq_decision : EqDecision byte := Byte.byte_eq_dec.

(** [[]byte("...")] *)
Definition bytes_of (s : string) : bytes := list_byte_of_string s.

(** [string(b)] *)
Definition string_of (b : bytes) : string := string_of_list_byte b.

Definition Z_of_byte (b : byte) : Z := Z.of_N (Byte.to_N b).

Definition byte_of_Z (z : Z) : byte :=
  match Byte.of_N (Z.to_N (z mod 256)) with
  | Some b => b
  | None => x00
  end.

(** ** encoding/hex *)

Module hex.

(** [const hextable = "0123456789abcdef"] *)
Definition hexdigit (n : Z) : byte :=
  byte_of_Z (if n <? 10 then 48 + n else 87 + n).

(** [func EncodedLen(n int) int { return n * 2 }] *)
Definition EncodedLen (n : nat) : nat := (n * 2)%nat.

(** [func DecodedLen(x int) int { return x / 2 }] *)
Definition DecodedLen (x : nat) : nat := (x / 2)%nat.

(** The bytes [Encode] writes: two digits per source byte, high nibble
    first. *)
Fixpoint encoded (src : bytes) : bytes :=
  match src with
  | [] => []
  | v :: src' =>
      hexdigit (Z.shiftr (Z_of_byte v) 4)
        :: hexdigit (Z.land (Z_of_byte v) 15) :: encoded src'
  end.

(** [dst[:len(w)] = w], the rest of [dst] untouched. *)
Definition overwrite (dst w : bytes) : bytes :=
  w ++ skipn (length w) dst.

(** [func Encode(dst, src []byte) int]; [dst] must hold
    [EncodedLen(len(src))] bytes, else the write is out of range. *)
Definition Encode (dst src : bytes) : option bytes :=
  if (length (encoded src) <=? length dst)%nat
  then Some (overwrite dst (encoded src))
  else None.

(** [fromHexChar]: digits, and letters of either case. *)
Definition fromHexChar (c : byte) : option Z :=
  let n := Z_of_byte c in
  if (48 <=? n) && (n <=? 57) then Some (n - 48)
  else if (97 <=? n) && (n <=? 102) then Some (n - 97 + 10)
  else if (65 <=? n) && (n <=? 70) then Some (n - 65 + 10)
  else None.

Inductive error := ErrLength | InvalidByteError (c : byte).

(** The bytes [Decode] stores before it stops, and the error it stops
    on: pairs of digits are decoded from the left up to the first
    character that is no digit; a single character left over is
    [ErrLength]. (Releases of Go before 1.10 refuse a text of odd length
    before they decode any of it; on a text of even length all releases
    store the same bytes.) *)
Fixpoint decoded (src : bytes) : bytes * option error :=
  match src with
  | [] => ([], None)
  | [p] =>
      match fromHexChar p with
      | None => ([], Some (InvalidByteError p))
      | Some _ => ([], Some ErrLength)
      end
  | p :: q :: src' =>
      match fromHexChar p, fromHexChar q with
      | None, _ => ([], Some (InvalidByteError p))
      | Some _, None => ([], Some (InvalidByteError q))
      | Some a, Some b =>
          let '(out, e) := decoded src' in
          (byte_of_Z (Z.lor (Z.shiftl a 4) b) :: out, e)
      end
  end.

(** [func Decode(dst, src []byte) (int, error)]: the contents of [dst]
    afterwards and the error. [dst] is only written where a pair was
    decoded, so after an error its tail keeps what it held. *)
Definition Decode (dst src : bytes) : bytes * option error :=
  let '(out, e) := decoded src in (overwrite dst out, e).

End hex.

(** [make([]byte, n)] *)
Definition make_bytes (n : nat) : bytes := repeat x00 n.

(** ** crypto/sha256 (FIPS 180-4) *)

Module sha256.

Definition w32 (x : Z) : Z := x mod 4294967296.
Definition add32 (x y : Z) : Z := w32 (x + y).
Definition rotr (n x : Z) : Z :=
  Z.lor (Z.shiftr x n) (w32 (Z.shiftl x (32 - n))).
Definition not32 (x : Z) : Z := 4294967295 - x.

Definition Ch (x y z : Z) := Z.lxor (Z.land x y) (Z.land (not32 x) z).
Definition Maj (x y z : Z) :=
  Z.lxor (Z.lxor (Z.land x y) (Z.land x z)) (Z.land y z).
Definition Sigma0 x := Z.lxor (Z.lxor (rotr 2 x) (rotr 13 x)) (rotr 22 x).
Definition Sigma1 x := Z.lxor (Z.lxor (rotr 6 x) (rotr 11 x)) (rotr 25 x).
Definition sigma0 x := Z.lxor (Z.lxor (rotr 7 x) (rotr 18 x)) (Z.shiftr x 3).
Definition sigma1 x := Z.lxor (Z.lxor (rotr 17 x) (rotr 19 x)) (Z.shiftr x 10).

(** The prime numbers below [bound], in order. *)
Definition primes_below (bound : nat) : list Z :=
  filter (fun p => forallb (fun d => negb (p mod d =? 0))
                           (map Z.of_nat (seq 2 (Z.to_nat p - 2))))
         (map Z.of_nat (seq 2 (bound - 2))).

(** The integer part of the cube root of [n], for [n] below [2 ^ 108]:
    its bits from the highest down. *)
Definition cube_root (n : Z) : Z :=
  fold_left (fun r k => let r' := r + 2 ^ Z.of_nat k in
                        if r' * r' * r' <=? n then r' else r)
            (rev (seq 0 36)) 0.

(** The round constants: the first thirty-two bits of the fractional
    parts of the cube roots of the first sixty-four primes. *)
Definition K : list Z :=
  Eval vm_compute in
    map (fun p => w32 (cube_root (p * 2 ^ 96))) (primes_below 312).

(** The eight working variables, also the chaining value. *)
Record state := State { sa : Z; sb : Z; sc : Z; sd : Z;
                        se : Z; sf : Z; sg : Z; sh : Z }.

(** The initial hash value: the first thirty-two bits of the fractional
    parts of the square roots of the first eight primes. *)
Definition init : state :=
  Eval vm_compute in
    match map (fun p => w32 (Z.sqrt (p * 2 ^ 64))) (primes_below 20) with
    | [a; b; c; d; e; f; g; h] => State a b c d e f g h
    | _ => State 0 0 0 0 0 0 0 0
    end.

Definition word_of (b3 b2 b1 b0 : byte) : Z :=
  Z.lor (Z.shiftl (Z_of_byte b3) 24)
    (Z.lor (Z.shiftl (Z_of_byte b2) 16)
       (Z.lor (Z.shiftl (Z_of_byte b1) 8) (Z_of_byte b0))).

Definition bytes_of_word (x : Z) : bytes :=
  [ byte_of_Z (Z.shiftr x 24); byte_of_Z (Z.shiftr x 16);
    byte_of_Z (Z.shiftr x 8); byte_of_Z x ].

(** The sixteen big-endian words of a 64-byte block. *)
Fixpoint words (blk : bytes) : list Z :=
  match blk with
  | b3 :: b2 :: b1 :: b0 :: blk' => word_of b3 b2 b1 b0 :: words blk'
  | _ => []
  end.

(** The message schedule, newest word first: [n] more words after the
    ones in [rev_w]. *)
Fixpoint schedule (n : nat) (rev_w : list Z) : list Z :=
  match n with
  | O => rev_w
  | S n' =>
      let wt := add32 (add32 (sigma1 (nth 1 rev_w 0)) (nth 6 rev_w 0))
                      (add32 (sigma0 (nth 14 rev_w 0)) (nth 15 rev_w 0)) in
      schedule n' (wt :: rev_w)
  end.

Definition round (s : state) (kw : Z * Z) : state :=
  let '(k, w) := kw in
  let t1 := add32 (add32 (add32 (sh s) (Sigma1 (se s)))
                         (add32 (Ch (se s) (sf s) (sg s)) k)) w in
  let t2 := add32 (Sigma0 (sa s)) (Maj (sa s) (sb s) (sc s)) in
  State (add32 t1 t2) (sa s) (sb s) (sc s)
        (add32 (sd s) t1) (se s) (sf s) (sg s).

Definition compress (h : state) (blk : bytes) : state :=
  let w := rev (schedule 48 (rev (words blk))) in
  let s := fold_left round (combine K w) h in
  State (add32 (sa h) (sa s)) (add32 (sb h) (sb s))
        (add32 (sc h) (sc s)) (add32 (sd h) (sd s))
        (add32 (se h) (se s)) (add32 (sf h) (sf s))
        (add32 (sg h) (sg s)) (add32 (sh h) (sh s)).

(** The padded message: a one bit, zeros up to 56 modulo 64, and the bit
    length on 8 bytes. *)
Definition pad (msg : bytes) : bytes :=
  let n := Z.of_nat (length msg) in
  let zeros := Z.to_nat ((55 - n) mod 64) in
  let bits := 8 * n in
  msg ++ x80 :: repeat x00 zeros
      ++ bytes_of_word (w32 (Z.shiftr bits 32)) ++ bytes_of_word (w32 bits).

(** One compression for each 64 bytes; [fuel] bounds the number of
    blocks. *)
Fixpoint blocks (fuel : nat) (h : state) (data : bytes) : state :=
  match fuel, data with
  | S fuel', _ :: _ => blocks fuel' (compress h (firstn 64 data)) (skipn 64 data)
  | _, _ => h
  end.

Definition digest (h : state) : bytes :=
  bytes_of_word (sa h) ++ bytes_of_word (sb h) ++ bytes_of_word (sc h)
    ++ bytes_of_word (sd h) ++ bytes_of_word (se h) ++ bytes_of_word (sf h)
    ++ bytes_of_word (sg h) ++ bytes_of_word (sh h).

(** [sha256.Sum256] *)
Definition Sum256 (msg : bytes) : bytes :=
  let p := pad msg in digest (blocks (length p) init p).

(** [sha256.Size], [sha256.BlockSize] *)
Definition Size : nat := 32.
Definition BlockSize : nat := 64.

End sha256.

(** ** crypto/hmac over SHA-256 (RFC 2104) *)

Module hmac.

Definition xor_with (c : Z) (k : bytes) : bytes :=
  map (fun b => byte_of_Z (Z.lxor (Z_of_byte b) c)) k.

(** [hmac.New(sha256.New, key)]: a key longer than a block is hashed,
    then it is padded with zeros to the block size. *)
Definition block_key (key : bytes) : bytes :=
  let k := if (sha256.BlockSize <? length key)%nat
           then sha256.Sum256 key else key in
  k ++ repeat x00 (sha256.BlockSize - length k).

(** [mac.Write(p1); ...; mac.Write(pn); mac.Sum(nil)]: the writes feed
    one running hash, so the sum is that of the parts laid end to end. *)
Definition Sum (key : bytes) (parts : list bytes) : bytes :=
  let k := block_key key in
  sha256.Sum256 (xor_with 0x5c k
                   ++ sha256.Sum256 (xor_with 0x36 k ++ concat parts)).

(** [mac.Size()] *)
Definition Size : nat := sha256.Size.

(** [hmac.Equal]: equal lengths and equal contents. *)
Definition Equal (mac1 mac2 : bytes) : bool := bool_decide (mac1 = mac2).

End hmac.

(** ** gouuid *)

Module uuid.

(** [type UUID [16]byte] *)
Abbreviation UUID := (list byte).

(** [const ReservedRFC4122 byte = 0x40] *)
Definition ReservedRFC4122 : Z := 0x40.

(** [u[8] = (u[8] | ReservedRFC4122) & 0x7F] *)
Definition setVariant (u : UUID) : UUID :=
  alter (fun b => byte_of_Z (Z.land (Z.lor (Z_of_byte b) ReservedRFC4122) 0x7F))
        8%nat u.

(** [u[6] = (u[6] & 0xF) | (v << 4)] *)
Definition setVersion (v : Z) (u : UUID) : UUID :=
  alter (fun b => byte_of_Z (Z.lor (Z.land (Z_of_byte b) 0xF) (Z.shiftl v 4)))
        6%nat u.

(** [func NewV4() (u *UUID, err error)]: [u = new(UUID)] is sixteen zero
    bytes, [rand.Read(u[:])] stores the bytes [rnd] that the random
    source delivers and fails when they are fewer than sixteen; on that
    error [u] is returned as it is, else its variant and version are
    set. *)
Definition NewV4 (rnd : bytes) : UUID * bool :=
  let u := hex.overwrite (make_bytes 16) (firstn 16 rnd) in
  if (length rnd <? 16)%nat then (u, true)
  else (setVersion 4 (setVariant u), false).

Definition dash : bytes := ["-"%byte].

(** [fmt.Sprintf("%x-%x-%x-%x-%x", u[0:4], u[4:6], u[6:8], u[8:10], u[10:])] *)
Definition String (u : UUID) : string :=
  string_of
    (hex.encoded (firstn 4 u) ++ dash
       ++ hex.encoded (firstn 2 (skipn 4 u)) ++ dash
       ++ hex.encoded (firstn 2 (skipn 6 u)) ++ dash
       ++ hex.encoded (firstn 2 (skipn 8 u)) ++ dash
       ++ hex.encoded (skipn 10 u)).

End uuid.

(** ** Run-time panics *)

Inductive panic := IndexOutOfRange | SliceBoundsOutOfRange.

(** What a call does: it returns, or it panics. *)
Inductive outcome (A : Type) :=
| Returns (a : A)
| Panics (p : panic).
Arguments Returns {A} a.
Arguments Panics {A} p.

#[global] Instance outcome_ret : MRet outcome := @Returns.
#[global] Instance outcome_bind : MBind outcome := fun A B f m =>
  match m with
  | Returns a => f a
  | Panics p => Panics p
  end.

(** ** Slices of frames *)

(** A [[][]byte]: the [len] elements in range, and the elements of the
    underlying array between [len] and [cap], which indexing refuses and
    re-slicing reaches. *)
Record slice := Slice { live : list bytes; spare : list bytes }.

Definition len (s : slice) : nat := length (live s).
Definition cap (s : slice) : nat := (length (live s) + length (spare s))%nat.

(** [s[i]]: in range below [len(s)]. *)
Definition index (s : slice) (i : nat) : outcome bytes :=
  match live s !! i with
  | Some x => Returns x
  | None => Panics IndexOutOfRange
  end.

(** [s[lo:hi]]: in range when [lo <= hi <= cap(s)]. *)
Definition reslice (s : slice) (lo hi : nat) : outcome (list bytes) :=
  if ((lo <=? hi) && (hi <=? cap s))%nat
  then Returns (firstn (hi - lo) (skipn lo (live s ++ spare s)))
  else Panics SliceBoundsOutOfRange.

(** ** The message structures *)

(** [type MsgHeader struct] *)
Record MsgHeader := mkMsgHeader {
  Msg_id : string;
  Username : string;
  Session : string;
  Msg_type : string
}.

(** The zero value of [MsgHeader]. *)
Definition zero_header : MsgHeader :=
  mkMsgHeader EmptyString EmptyString EmptyString EmptyString.

(** [type InvalidSignatureError struct {}], the only error of the file. *)
Inductive error := InvalidSignatureError.

(** [func (e *InvalidSignatureError) Error() string] *)
Definition Error (e : error) : string := "A message had an invalid signature".

(** ** encoding/json, as the codec sees it

    [GoValue] is what an [interface{}] holds and [nil_value] the nil
    interface. A map that may be [nil] is an optional [gmap]. [Marshal]
    gives the text and the error; [Unmarshal] takes the text and what the
    target holds and gives what the target holds afterwards, and the
    error. *)
Class JsonLib := {
  GoValue : Type;
  nil_value : GoValue;
  json_error : Type;
  Marshal_header : MsgHeader -> bytes * option json_error;
  Marshal_map : option (gmap string GoValue) -> bytes * option json_error;
  Marshal_value : GoValue -> bytes * option json_error;
  Unmarshal_header : bytes -> MsgHeader -> MsgHeader * option json_error;
  Unmarshal_map : bytes -> option (gmap string GoValue)
                  -> option (gmap string GoValue) * option json_error;
  Unmarshal_value : bytes -> GoValue -> GoValue * option json_error
}.

Section Codec.

Context {J : JsonLib}.

(** [type ComposedMsg struct] *)
Record ComposedMsg := mkComposedMsg {
  Header : MsgHeader;
  Parent_header : MsgHeader;
  Metadata : option (gmap string GoValue);
  Content : GoValue
}.

(** The zero value of [ComposedMsg], what the named result [msg] holds
    on entry. *)
Definition zero_msg : ComposedMsg :=
  mkComposedMsg zero_header zero_header None nil_value.

Definition delimiter : bytes := bytes_of "<IDS|MSG>".

(** [for string(msgparts[i]) != "<IDS|MSG>" { i++ }], with [parts] the
    elements from index [i] on: the index the loop stops at, or the
    panic of [msgparts[i]] once [i] reaches [len(msgparts)]. *)
Fixpoint scan (parts : list bytes) (i : nat) : outcome nat :=
  match parts with
  | [] => Panics IndexOutOfRange
  | p :: parts' =>
      if bool_decide (string_of p = "<IDS|MSG>") then Returns i
      else scan parts' (S i)
  end.

(** What [WireMsgToComposedMsg] returns: [(msg, identities, err)], a nil
    [identities] being the empty list and a nil [err] being [None]. *)
Definition decode_result : Type := ComposedMsg * list bytes * option error.

(** Lines 61-65: the four [json.Unmarshal] calls, their errors dropped,
    and the plain [return]. *)
Definition unmarshal_parts (msgparts : slice) (i : nat)
    (identities : list bytes) : outcome decode_result :=
  p2 ← index msgparts (i + 2);
  let header := (Unmarshal_header p2 zero_header).1 in
  p3 ← index msgparts (i + 3);
  let parent_header := (Unmarshal_header p3 zero_header).1 in
  p4 ← index msgparts (i + 4);
  let metadata := (Unmarshal_map p4 None).1 in
  p5 ← index msgparts (i + 5);
  let content := (Unmarshal_value p5 nil_value).1 in
  Returns (mkComposedMsg header parent_header metadata content,
           identities, None).

(** Lines 55-56: [signature] is made of zero bytes and [hex.Decode]
    writes into it; its error is dropped. *)
Definition decode_signature (sig : bytes) : bytes :=
  (hex.Decode (make_bytes (hex.DecodedLen (length sig))) sig).1.

(** [func WireMsgToComposedMsg(msgparts [][]byte, signkey []byte)
      (msg ComposedMsg, identities [][]byte, err error)] *)
Definition WireMsgToComposedMsg (msgparts : slice) (signkey : bytes)
    : outcome decode_result :=
  i ← scan (live msgparts) 0;
  let identities := firstn i (live msgparts) in
  if bool_decide (length signkey ≠ 0%nat) then
    signed ← reslice msgparts (i + 2) (i + 6);
    let mac := hmac.Sum signkey signed in
    sig ← index msgparts (i + 1);
    let signature := decode_signature sig in
    if negb (hmac.Equal mac signature)
    then Returns (zero_msg, [], Some InvalidSignatureError)
    else unmarshal_parts msgparts i identities
  else unmarshal_parts msgparts i identities.

(** [msgparts[i] = x] on a slice of which every element is live. *)
Definition store (msgparts : list bytes) (i : nat) (x : bytes)
    : outcome (list bytes) :=
  if (i <? length msgparts)%nat then Returns (<[i := x]> msgparts)
  else Panics IndexOutOfRange.

(** [hex.Encode(dst, src)], whose write past the end of [dst] panics. *)
Definition hex_Encode (dst src : bytes) : outcome bytes :=
  match hex.Encode dst src with
  | Some dst' => Returns dst'
  | None => Panics IndexOutOfRange
  end.

(** Lines 84-92, "Sign the message": under a non-empty key the MAC of
    [msgparts[1:]] is written in hexadecimal into [msgparts[0]]. *)
Definition sign (msgparts : list bytes) (signkey : bytes)
    : outcome (list bytes) :=
  if bool_decide (length signkey ≠ 0%nat) then
    let mac := hmac.Sum signkey (skipn 1 msgparts) in
    msgparts ← store msgparts 0 (make_bytes (hex.EncodedLen hmac.Size));
    dst ← index (Slice msgparts []) 0;
    sig ← hex_Encode dst mac;
    store msgparts 0 sig
  else Returns msgparts.

(** The body of [ToWireMsg] on its receiver [msg], a copy of the
    caller's value: the frames, and the receiver as the body leaves
    it. *)
Definition ToWireMsg_body (msg : ComposedMsg) (signkey : bytes)
    : outcome (list bytes * ComposedMsg) :=
  let msgparts := repeat ([] : bytes) 5 in
  let header := (Marshal_header (Header msg)).1 in
  msgparts ← store msgparts 1 header;
  let parent_header := (Marshal_header (Parent_header msg)).1 in
  msgparts ← store msgparts 2 parent_header;
  let msg :=
    match Metadata msg with
    | None => mkComposedMsg (Header msg) (Parent_header msg) (Some ∅)
                            (Content msg)
    | Some _ => msg
    end in
  let metadata := (Marshal_map (Metadata msg)).1 in
  msgparts ← store msgparts 3 metadata;
  let content := (Marshal_value (Content msg)).1 in
  msgparts ← store msgparts 4 content;
  msgparts ← sign msgparts signkey;
  Returns (msgparts, msg).

(** [func (msg ComposedMsg) ToWireMsg(signkey []byte) (msgparts [][]byte)] *)
Definition ToWireMsg (msg : ComposedMsg) (signkey : bytes)
    : outcome (list bytes) :=
  r ← ToWireMsg_body msg signkey; Returns r.1.

(** What [SendResponse] puts on the socket: the identities, the
    delimiter, the frames of [ToWireMsg]. *)
Definition SendResponse_frames (identities : list bytes)
    (msg : ComposedMsg) (signkey : bytes) : outcome (list bytes) :=
  frames ← ToWireMsg msg signkey;
  Returns (identities ++ delimiter :: frames).

(** [func NewMsg(msg_type string, parent ComposedMsg) (msg ComposedMsg)];
    [rnd] is what the random source gives to [uuid.NewV4], whose error
    is dropped. *)
Definition NewMsg (msg_type : string) (parent : ComposedMsg) (rnd : bytes)
    : ComposedMsg :=
  let u := (uuid.NewV4 rnd).1 in
  mkComposedMsg
    (mkMsgHeader (uuid.String u) (Username (Header parent))
                 (Session (Header parent)) msg_type)
    (Header parent) None nil_value.

(** The message [unmarshal_parts] builds from four frames. *)
Definition parsed (f1 f2 f3 f4 : bytes) : ComposedMsg :=
  mkComposedMsg (Unmarshal_header f1 zero_header).1
                (Unmarshal_header f2 zero_header).1
                (Unmarshal_map f3 None).1
                (Unmarshal_value f4 nil_value).1.

(** The signature frame [ToWireMsg] writes over [parts]. *)
Definition signature_frame (signkey : bytes) (parts : list bytes) : bytes :=
  if bool_decide (length signkey ≠ 0%nat)
  then hex.encoded (hmac.Sum signkey parts) else [].

(** The frames [ToWireMsg] makes of a message. *)
Definition frames_of (msg : ComposedMsg) (signkey : bytes) : list bytes :=
  let h := (Marshal_header (Header msg)).1 in
  let p := (Marshal_header (Parent_header msg)).1 in
  let m := (Marshal_map (Some (default ∅ (Metadata msg)))).1 in
  let c := (Marshal_value (Content msg)).1 in
  [signature_frame signkey [h; p; m; c]; h; p; m; c].

End Codec.

(** ** encoding/json on JSON trees

    An instance of [JsonLib] that computes: the [interface{}] values are
    the trees [Unmarshal] builds (nil, bool, number, string, slice, map).
    A number is kept as its literal, where Go converts it to a [float64];
    otherwise the grammar, the string escapes, the UTF-8 repairs, the
    field matching and the key order are those of [encoding/json]. *)

Module gojson.

#[local] Set Warnings "-register-all".

Inductive json :=
| JNull
| JBool (b : bool)
| JNumber (lit : bytes)
| JString (s : string)
| JArray (elems : list json)
| JObject (members : list (string * json)).

Inductive error :=
| SyntaxError
| UnmarshalTypeError (field : string).

Definition isb (c b : byte) : bool := Byte.eqb c b.
Definition between (lo hi : Z) (b : byte) : bool :=
  (lo <=? Z_of_byte b) && (Z_of_byte b <=? hi).

(** *** UTF-8 *)

(** The length of the well-formed sequence at the head of [s], or [0]
    when [utf8.DecodeRune] gives [RuneError]. *)
Definition rune_size (s : bytes) : nat :=
  match s with
  | [] => 0%nat
  | b0 :: t =>
      let n := Z_of_byte b0 in
      if n <? 0x80 then 1%nat
      else if n <? 0xC2 then 0%nat
      else if n <? 0xE0 then
        match t with
        | b1 :: _ => if between 0x80 0xBF b1 then 2%nat else 0%nat
        | _ => 0%nat
        end
      else if n <? 0xF0 then
        match t with
        | b1 :: b2 :: _ =>
            if between (if n =? 0xE0 then 0xA0 else 0x80)
                       (if n =? 0xED then 0x9F else 0xBF) b1
               && between 0x80 0xBF b2 then 3%nat else 0%nat
        | _ => 0%nat
        end
      else if n <? 0xF5 then
        match t with
        | b1 :: b2 :: b3 :: _ =>
            if between (if n =? 0xF0 then 0x90 else 0x80)
                       (if n =? 0xF4 then 0x8F else 0xBF) b1
               && between 0x80 0xBF b2 && between 0x80 0xBF b3
            then 4%nat else 0%nat
        | _ => 0%nat
        end
      else 0%nat
  end.

(** [utf8.EncodeRune] *)
Definition encode_rune (r : Z) : bytes :=
  let c x := byte_of_Z (Z.lor 0x80 (Z.land x 0x3F)) in
  if r <? 0x80 then [byte_of_Z r]
  else if r <? 0x800 then [byte_of_Z (Z.lor 0xC0 (Z.shiftr r 6)); c r]
  else if (0xD800 <=? r) && (r <=? 0xDFFF) then [xef; xbf; xbd]
  else if r <? 0x10000 then
    [byte_of_Z (Z.lor 0xE0 (Z.shiftr r 12)); c (Z.shiftr r 6); c r]
  else if r <=? 0x10FFFF then
    [byte_of_Z (Z.lor 0xF0 (Z.shiftr r 18)); c (Z.shiftr r 12);
     c (Z.shiftr r 6); c r]
  else [xef; xbf; xbd].

(** *** Reading *)

Definition is_space (b : byte) : bool :=
  isb " " b || isb x09 b || isb x0a b || isb x0d b.

Fixpoint skip_space (s : bytes) : bytes :=
  match s with
  | b :: s' => if is_space b then skip_space s' else s
  | [] => []
  end.

(** [getu4] on the text after the two characters of the escape: the
    value of four hexadecimal digits. *)
Definition getu4 (s : bytes) : option Z :=
  match s with
  | h1 :: h2 :: h3 :: h4 :: _ =>
      match hex.fromHexChar h1, hex.fromHexChar h2,
            hex.fromHexChar h3, hex.fromHexChar h4 with
      | Some a, Some b, Some c, Some d => Some (((a * 16 + b) * 16 + c) * 16 + d)
      | _, _, _, _ => None
      end
  | _ => None
  end.

Definition simple_escape (e : byte) : option byte :=
  if isb x22 e then Some x22
  else if isb "\" e then Some "\"%byte
  else if isb "/" e then Some "/"%byte
  else if isb "b" e then Some x08
  else if isb "f" e then Some x0c
  else if isb "n" e then Some x0a
  else if isb "r" e then Some x0d
  else if isb "t" e then Some x09
  else None.

Definition emit (w : bytes) (r : option (bytes * bytes)) : option (bytes * bytes) :=
  match r with
  | Some (out, rest) => Some (w ++ out, rest)
  | None => None
  end.

(** [utf16.DecodeRune] *)
Definition utf16_pair (r1 r2 : Z) : option Z :=
  if (0xD800 <=? r1) && (r1 <? 0xDC00) && (0xDC00 <=? r2) && (r2 <? 0xE000)
  then Some (Z.lor (Z.shiftl (r1 - 0xD800) 10) (r2 - 0xDC00) + 0x10000)
  else None.

(** [unquote], on the text after the opening quote: the bytes of the
    string and the text after the closing quote. *)
Fixpoint unquote (fuel : nat) (s : bytes) : option (bytes * bytes) :=
  match fuel, s with
  | S f, c :: t =>
      if isb x22 c then Some ([], t)
      else if Z_of_byte c <? 0x20 then None
      else if isb "\" c then
        match t with
        | [] => None
        | e :: t' =>
            match simple_escape e with
            | Some b => emit [b] (unquote f t')
            | None =>
                if isb "u" e then
                  match getu4 t' with
                  | None => None
                  | Some rr =>
                      let t4 := skipn 4 t' in
                      if (0xD800 <=? rr) && (rr <? 0xE000) then
                        match t4 with
                        | b :: u :: t5 =>
                            match (if isb "\" b && isb "u" u then getu4 t5 else None) with
                            | Some rr1 =>
                                match utf16_pair rr rr1 with
                                | Some dec => emit (encode_rune dec) (unquote f (skipn 4 t5))
                                | None => emit [xef; xbf; xbd] (unquote f t4)
                                end
                            | None => emit [xef; xbf; xbd] (unquote f t4)
                            end
                        | _ => emit [xef; xbf; xbd] (unquote f t4)
                        end
                      else emit (encode_rune rr) (unquote f t4)
                  end
                else None
            end
        end
      else
        match rune_size s with
        | O => emit [xef; xbf; xbd] (unquote f t)
        | k => emit (firstn k s) (unquote f (skipn k s))
        end
  | _, _ => None
  end.

Definition is_digit (b : byte) : bool := between 48 57 b.

Fixpoint digits (s : bytes) : bytes * bytes :=
  match s with
  | b :: s' =>
      if is_digit b then let '(d, rest) := digits s' in (b :: d, rest)
      else ([], s)
  | [] => ([], [])
  end.

(** A number literal: sign, integer part without a leading zero,
    fraction, exponent. *)
Definition number (s : bytes) : option (bytes * bytes) :=
  let '(sign, s1) :=
    match s with
    | b :: t => if isb "-" b then ([b], t) else ([], s)
    | [] => ([], s)
    end in
  let '(int, s2) :=
    match s1 with
    | b :: t => if isb "0" b then ([b], t) else digits s1
    | [] => ([], s1)
    end in
  match int with
  | [] => None
  | _ =>
      let frac :=
        match s2 with
        | b :: t =>
            if isb "." b then
              match digits t with
              | ([], _) => None
              | (d, rest) => Some (b :: d, rest)
              end
            else Some ([], s2)
        | [] => Some ([], s2)
        end in
      match frac with
      | None => None
      | Some (fr, s3) =>
          let exp :=
            match s3 with
            | b :: t =>
                if isb "e" b || isb "E" b then
                  let '(sg, t') :=
                    match t with
                    | c :: t' => if isb "+" c || isb "-" c then ([c], t') else ([], t)
                    | [] => ([], t)
                    end in
                  match digits t' with
                  | ([], _) => None
                  | (d, rest) => Some (b :: sg ++ d, rest)
                  end
                else Some ([], s3)
            | [] => Some ([], s3)
            end in
          match exp with
          | None => None
          | Some (ex, s4) => Some (sign ++ int ++ fr ++ ex, s4)
          end
      end
  end.

(** [s] when it starts with [w], without it. *)
Fixpoint after (w s : bytes) : option bytes :=
  match w, s with
  | [], _ => Some s
  | a :: w', b :: s' => if Byte.eqb a b then after w' s' else None
  | _ :: _, [] => None
  end.

(** One value and the text after it; [elems] and [members] read the
    rest of an array and of an object once the first element is due. *)
Fixpoint value (fuel : nat) (s : bytes) : option (json * bytes) :=
  match fuel with
  | O => None
  | S f =>
      match skip_space s with
      | [] => None
      | c :: t =>
          if isb "{" c then
            match skip_space t with
            | b :: t' =>
                if isb "}" b then Some (JObject [], t')
                else
                  match members f (skip_space t) with
                  | Some (m, rest) => Some (JObject m, rest)
                  | None => None
                  end
            | [] => None
            end
          else if isb "[" c then
            match skip_space t with
            | b :: t' =>
                if isb "]" b then Some (JArray [], t')
                else
                  match elems f t with
                  | Some (l, rest) => Some (JArray l, rest)
                  | None => None
                  end
            | [] => None
            end
          else if isb x22 c then
            match unquote (length s) t with
            | Some (str, rest) => Some (JString (string_of str), rest)
            | None => None
            end
          else
            match after (bytes_of "null") (c :: t),
                  after (bytes_of "true") (c :: t),
                  after (bytes_of "false") (c :: t) with
            | Some rest, _, _ => Some (JNull, rest)
            | _, Some rest, _ => Some (JBool true, rest)
            | _, _, Some rest => Some (JBool false, rest)
            | _, _, _ =>
                match number (c :: t) with
                | Some (lit, rest) => Some (JNumber lit, rest)
                | None => None
                end
            end
      end
  end
with elems (fuel : nat) (s : bytes) : option (list json * bytes) :=
  match fuel with
  | O => None
  | S f =>
      match value f s with
      | None => None
      | Some (v, rest) =>
          match skip_space rest with
          | b :: t =>
              if isb "," b then
                match elems f t with
                | Some (l, rest') => Some (v :: l, rest')
                | None => None
                end
              else if isb "]" b then Some ([v], t)
              else None
          | [] => None
          end
      end
  end
with members (fuel : nat) (s : bytes) : option (list (string * json) * bytes) :=
  match fuel with
  | O => None
  | S f =>
      match s with
      | q :: t =>
          if isb x22 q then
            match unquote (length s) t with
            | None => None
            | Some (k, rest) =>
                match skip_space rest with
                | c :: t' =>
                    if isb ":" c then
                      match value f t' with
                      | None => None
                      | Some (v, rest') =>
                          match skip_space rest' with
                          | b :: t'' =>
                              if isb "," b then
                                match members f (skip_space t'') with
                                | Some (m, rest'') => Some ((string_of k, v) :: m, rest'')
                                | None => None
                                end
                              else if isb "}" b then Some ([(string_of k, v)], t'')
                              else None
                          | [] => None
                          end
                      end
                    else None
                | [] => None
                end
            end
          else None
      | [] => None
      end
  end.

(** [checkValid] and the scan: one value, white space around it,
    nothing else. *)
Definition parse (data : bytes) : option json :=
  match value (S (length data)) data with
  | Some (v, rest) =>
      match skip_space rest with
      | [] => Some v
      | _ :: _ => None
      end
  | None => None
  end.

(** *** Maps behind [interface{}] *)

Fixpoint compare_bytes (a b : bytes) : comparison :=
  match a, b with
  | [], [] => Eq
  | [], _ :: _ => Lt
  | _ :: _, [] => Gt
  | x :: a', y :: b' =>
      match Z.compare (Z_of_byte x) (Z_of_byte y) with
      | Eq => compare_bytes a' b'
      | c => c
      end
  end.

(** [m[k] = v] on a map kept as the list of its entries in the order of
    their keys, the order in which [Marshal] writes them. *)
Fixpoint put (k : string) (v : json) (m : list (string * json))
    : list (string * json) :=
  match m with
  | [] => [(k, v)]
  | (k', v') :: m' =>
      match compare_bytes (bytes_of k) (bytes_of k') with
      | Lt => (k, v) :: m
      | Eq => (k, v) :: m'
      | Gt => (k', v') :: put k v m'
      end
  end.

(** The value a tree stands for: the members of an object stored one
    after the other into a map, a later one replacing an earlier one of
    the same key. *)
Fixpoint norm (v : json) : json :=
  match v with
  | JArray l => JArray (map norm l)
  | JObject m =>
      JObject (fold_left (fun acc kv => put kv.1 (norm kv.2) acc) m [])
  | _ => v
  end.

(** *** Writing *)

Definition hex4 (n : Z) : bytes :=
  [ hex.hexdigit (Z.land (Z.shiftr n 12) 15); hex.hexdigit (Z.land (Z.shiftr n 8) 15);
    hex.hexdigit (Z.land (Z.shiftr n 4) 15); hex.hexdigit (Z.land n 15) ].

(** The body of a string literal, as [Marshal] escapes it (HTML
    characters included). *)
Fixpoint escape (fuel : nat) (s : bytes) : bytes :=
  match fuel, s with
  | S f, c :: t =>
      let n := Z_of_byte c in
      if n <? 0x80 then
        (if isb x22 c || isb "\" c then ["\"%byte; c]
         else if isb x0a c then bytes_of "\n"
         else if isb x0d c then bytes_of "\r"
         else if isb x09 c then bytes_of "\t"
         else if isb x08 c then bytes_of "\b"
         else if isb x0c c then bytes_of "\f"
         else if (n <? 0x20) || isb "<" c || isb ">" c || isb "&" c
         then bytes_of "\u" ++ hex4 n
         else [c]) ++ escape f t
      else
        match rune_size s with
        | O => bytes_of "\ufffd" ++ escape f t
        | k =>
            match firstn k s with
            | [xe2; x80; xa8] => bytes_of "\u2028"
            | [xe2; x80; xa9] => bytes_of "\u2029"
            | r => r
            end ++ escape f (skipn k s)
        end
  | _, _ => []
  end.

Definition quote (s : string) : bytes :=
  x22 :: escape (length (bytes_of s)) (bytes_of s) ++ [x22].

Fixpoint join (sep : bytes) (l : list bytes) : bytes :=
  match l with
  | [] => []
  | [x] => x
  | x :: l' => x ++ sep ++ join sep l'
  end.

Fixpoint print (v : json) : bytes :=
  match v with
  | JNull => bytes_of "null"
  | JBool true => bytes_of "true"
  | JBool false => bytes_of "false"
  | JNumber lit => lit
  | JString s => quote s
  | JArray l => "["%byte :: join [","%byte] (map print l) ++ ["]"%byte]
  | JObject m =>
      "{"%byte
        :: join [","%byte]
             (map (fun kv => quote kv.1 ++ ":"%byte :: print kv.2) m)
        ++ ["}"%byte]
  end.

(** *** The three targets of the codec *)

(** [json.Marshal] of a [MsgHeader]: its four tagged fields in
    order. *)
Definition Marshal_header (h : MsgHeader) : bytes * option error :=
  (bytes_of "{" ++ quote "msg_id" ++ bytes_of ":" ++ quote (Msg_id h)
     ++ bytes_of "," ++ quote "username" ++ bytes_of ":" ++ quote (Username h)
     ++ bytes_of "," ++ quote "session" ++ bytes_of ":" ++ quote (Session h)
     ++ bytes_of "," ++ quote "msg_type" ++ bytes_of ":" ++ quote (Msg_type h)
     ++ bytes_of "}", None).

(** [json.Marshal] of an [interface{}]. *)
Definition Marshal_value (v : json) : bytes * option error :=
  (print (norm v), None).

(** [json.Marshal] of a [map[string]interface{}]: [null] for the nil
    map, else the entries in the order of their keys. *)
Definition Marshal_map (m : option (gmap string json)) : bytes * option error :=
  match m with
  | None => (bytes_of "null", None)
  | Some m => Marshal_value (JObject (map_to_list m))
  end.

(** Case folding of a key, as the field lookup applies it. *)
Fixpoint fold_key (s : bytes) : bytes :=
  match s with
  | [] => []
  | c :: t =>
      if between 65 90 c then byte_of_Z (Z_of_byte c + 32) :: fold_key t
      else
        match t with
        | b1 :: t1 =>
            if isb xc5 c && isb xbf b1 then "s"%byte :: fold_key t1
            else
              match t1 with
              | b2 :: t2 =>
                  if isb xe2 c && isb x84 b1 && isb xaa b2
                  then "k"%byte :: fold_key t2
                  else c :: fold_key t
              | [] => c :: fold_key t
              end
        | [] => [c]
        end
  end.

Definition same_field (tag key : string) : bool :=
  bool_decide (fold_key (bytes_of key) = bytes_of tag).

(** One member of an object stored into the struct: a string sets the
    field it names, [null] and unknown keys change nothing, any other
    value is a type error and the scan goes on. *)
Definition set_field (acc : MsgHeader * option error) (kv : string * json)
    : MsgHeader * option error :=
  let '(h, e) := acc in
  let '(k, v) := kv in
  let store (tag : string) (upd : string -> MsgHeader) :=
    match v with
    | JString s => (upd s, e)
    | JNull => (h, e)
    | _ => (h, match e with None => Some (UnmarshalTypeError tag) | _ => e end)
    end in
  if same_field "msg_id" k then
    store "msg_id" (fun s => mkMsgHeader s (Username h) (Session h) (Msg_type h))
  else if same_field "username" k then
    store "username" (fun s => mkMsgHeader (Msg_id h) s (Session h) (Msg_type h))
  else if same_field "session" k then
    store "session" (fun s => mkMsgHeader (Msg_id h) (Username h) s (Msg_type h))
  else if same_field "msg_type" k then
    store "msg_type" (fun s => mkMsgHeader (Msg_id h) (Username h) (Session h) s)
  else (h, e).

(** [json.Unmarshal(data, &h)] *)
Definition Unmarshal_header (data : bytes) (h : MsgHeader)
    : MsgHeader * option error :=
  match parse data with
  | None => (h, Some SyntaxError)
  | Some (JObject m) => fold_left set_field m (h, None)
  | Some JNull => (h, None)
  | Some _ => (h, Some (UnmarshalTypeError EmptyString))
  end.

(** [json.Unmarshal(data, &m)] *)
Definition Unmarshal_map (data : bytes) (m : option (gmap string json))
    : option (gmap string json) * option error :=
  match parse data with
  | None => (m, Some SyntaxError)
  | Some (JObject l) =>
      (Some (fold_left (fun acc kv => <[kv.1 := norm kv.2]> acc) l
                       (default ∅ m)), None)
  | Some JNull => (None, None)
  | Some _ => (m, Some (UnmarshalTypeError EmptyString))
  end.

(** [json.Unmarshal(data, &v)] into an [interface{}]. *)
Definition Unmarshal_value (data : bytes) (v : json) : json * option error :=
  match parse data with
  | None => (v, Some SyntaxError)
  | Some t => (norm t, None)
  end.

Definition lib : JsonLib :=
  Build_JsonLib json JNull error Marshal_header Marshal_map Marshal_value
                Unmarshal_header Unmarshal_map Unmarshal_value.

End gojson.

(** ** Plain text

    The strings that [json.Marshal] writes as they are. *)





(** ** The receiver of [ToWireMsg] in memory

    A Go map value is a reference: copying a [ComposedMsg] copies the
    reference in its [Metadata] field, not the map. Here the maps live in a
    heap and a variable of type [ComposedMsg] holds a location or [nil]. *)

(** The address of a map, and the maps of the program by address. *)
Abbreviation loc := positive.
Abbreviation heap := (gmap loc (gmap string GoValue)).

Section Memory.

Context {J : JsonLib}.

(** What a variable of type [ComposedMsg] holds. *)
Record ComposedMsg_var := mkVar {
  vHeader : MsgHeader;
  vParent_header : MsgHeader;
  vMetadata : option loc;
  vContent : GoValue
}.

(** The map a [Metadata] field stands for. *)
Definition map_at (h : heap) (r : option loc) : option (gmap string GoValue) :=
  l ← r; h !! l.

(** The message a variable stands for. *)
Definition deref (h : heap) (v : ComposedMsg_var) : ComposedMsg :=
  mkComposedMsg (vHeader v) (vParent_header v) (map_at h (vMetadata v))
                (vContent v).

(** No reference of the variable dangles. *)
Definition wf (h : heap) (v : ComposedMsg_var) : Prop :=
  forall l, vMetadata v = Some l -> is_Some (h !! l).

(** Lines 76-78, [if msg.Metadata == nil { msg.Metadata = make(...) }],
    on the heap and the receiver: the new map is at an address no map of
    the heap has. *)
Definition with_metadata (h : heap) (msg : ComposedMsg_var)
    : heap * ComposedMsg_var :=
  match vMetadata msg with
  | None =>
      let l := fresh (dom h) in
      (<[l := ∅]> h,
       mkVar (vHeader msg) (vParent_header msg) (Some l) (vContent msg))
  | Some _ => (h, msg)
  end.

(** The body of [ToWireMsg] on the heap and on the receiver variable
    [msg]: the statements of [ToWireMsg_body], the map read through its
    address. *)
Definition ToWireMsg_mem (h : heap) (msg : ComposedMsg_var) (signkey : bytes)
    : outcome (list bytes * heap * ComposedMsg_var) :=
  let msgparts := repeat ([] : bytes) 5 in
  let header := (Marshal_header (vHeader msg)).1 in
  msgparts ← store msgparts 1 header;
  let parent_header := (Marshal_header (vParent_header msg)).1 in
  msgparts ← store msgparts 2 parent_header;
  let '(h, msg) := with_metadata h msg in
  let metadata := (Marshal_map (map_at h (vMetadata msg))).1 in
  msgparts ← store msgparts 3 metadata;
  let content := (Marshal_value (vContent msg)).1 in
  msgparts ← store msgparts 4 content;
  msgparts ← sign msgparts signkey;
  Returns (msgparts, h, msg).

(** [caller.ToWireMsg(signkey)]: the receiver is a copy of the caller's
    variable, which the call leaves as it is; the frames, the heap and
    the caller's variable after the call. *)
Definition call_ToWireMsg (h : heap) (caller : ComposedMsg_var)
    (signkey : bytes) : outcome (list bytes * heap * ComposedMsg_var) :=
  let receiver := caller in
  r ← ToWireMsg_mem h receiver signkey;
  Returns (r.1.1, r.1.2, caller).

End Memory.

(** ** Changing one bit of one frame *)

Definition flip_bit (k : Z) (b : byte) : byte :=
  byte_of_Z (Z.lxor (Z_of_byte b) (Z.shiftl 1 k)).

(** Bit [k] of byte [j] of frame [i] inverted. *)
Definition tamper (frames : list bytes) (i j : nat) (k : Z) : list bytes :=
  alter (alter (flip_bit k) j) i frames.

(** ** The example of the specification *)

Module example.

Definition key : bytes := bytes_of "secret".

Definition identities : list bytes := [bytes_of "A1"].

Definition header (id : string) : MsgHeader :=
  mkMsgHeader id "u" "s" "execute_request".

Definition content : gojson.json :=
  gojson.JObject [("code", gojson.JString "1+1")].

Definition msg (id : string) : @ComposedMsg gojson.lib :=
  @mkComposedMsg gojson.lib (header id) zero_header (Some ∅) content.

(** A JSON text written with ['] for the double quote. *)
Definition text (s : string) : bytes :=
  map (fun b => if Byte.eqb b "'" then x22 else b) (bytes_of s).

Definition header_json (id : string) : bytes :=
  text "{'msg_id':'" ++ bytes_of id
    ++ text "','username':'u','session':'s','msg_type':'execute_request'}".

Definition parent_json : bytes :=
  text "{'msg_id':'','username':'','session':'','msg_type':''}".

Definition content_json : bytes := text "{'code':'1+1'}".

(** The envelope of message [id] under the signature frame [sig]. *)
Definition envelope (sig : bytes) (id : string) : list bytes :=
  [bytes_of "A1"; bytes_of "<IDS|MSG>"; sig; header_json id; parent_json;
   bytes_of "{}"; content_json].

(** The signature of message [1] under [key], and of message [85], of
    which the MAC ends in a zero byte; the latter with its last two digits
    replaced by a letter that is no digit. *)
Definition signature_1 : bytes :=
  bytes_of "c02f1a3c444ad109c8d405b538f58f3a9af4ce9bc0858c69833a62daf4cbdd99".

Definition signature_85 : bytes :=
  bytes_of "1f773f037613becd8de0592040c137838c852cdd77cd3dab7796a289f9c7b500".

Definition signature_85_zz : bytes :=
  bytes_of "1f773f037613becd8de0592040c137838c852cdd77cd3dab7796a289f9c7b5zz".

(** Message [1] with no metadata map. *)
Definition unset_msg : @ComposedMsg gojson.lib :=
  @mkComposedMsg gojson.lib (header "1") zero_header None content.

(** A parent made by [NewMsg] itself, for which the random source gave
    sixteen zero bytes. *)
Definition parent : @ComposedMsg gojson.lib :=
  @NewMsg gojson.lib "execute_request" (msg "1") (make_bytes 16).

(** The caller's variable holding message [1] without a metadata map. *)
Definition caller : @ComposedMsg_var gojson.lib :=
  @mkVar gojson.lib (header "1") zero_header None content.

End example.


(** ** The receipt and the reply *)

Section Receipt.

Context {J : JsonLib}.

(** [type MsgReceipt struct]; of its [Sockets] the [Key], the one field of
    the [SocketGroup] that the file reads. *)
Record MsgReceipt := mkMsgReceipt {
  Msg : ComposedMsg;
  Identities : list bytes;
  Sockets_Key : bytes
}.

(** [func (receipt *MsgReceipt) SendResponse(socket *zmq.Socket, msg
    ComposedMsg)] on the frames [sent] on the socket so far: the
    identities and the delimiter are sent before [ToWireMsg] is called, so
    they are on the socket also if that call panics. The flags of the
    sends and the two log lines are left out; the receipt has at least
    one identity, as a request from a router socket has (what
    [SendMultipart] does with no frame at all is the socket library's). *)
Definition SendResponse (sent : list bytes) (receipt : MsgReceipt)
    (msg : ComposedMsg) : list bytes * option panic :=
  let sent := sent ++ Identities receipt in
  let sent := sent ++ [bytes_of "<IDS|MSG>"] in
  match ToWireMsg msg (Sockets_Key receipt) with
  | Returns frames => (sent ++ frames, None)
  | Panics p => (sent, Some p)
  end.

(** A chain of replies: each step makes with [NewMsg] a message of the
    given type, from the given random bytes, for the message before it. *)
Definition replies (first : ComposedMsg) (steps : list (string * bytes))
    : ComposedMsg :=
  fold_left (fun parent step => NewMsg step.1 parent step.2) steps first.

End Receipt.

(** ** The letters of hexadecimal text *)

(** A digit as [hex.Encode] writes it. *)
Definition is_lower_hex (b : byte) : bool :=
  ((48 <=? Z_of_byte b) && (Z_of_byte b <=? 57))
  || ((97 <=? Z_of_byte b) && (Z_of_byte b <=? 102)).

(** The capital of a small letter, other bytes as they are. *)
Definition to_upper (b : byte) : byte :=
  if (97 <=? Z_of_byte b) && (Z_of_byte b <=? 122)
  then byte_of_Z (Z_of_byte b - 32) else b.

(** * Properties *)

(** ** Bytes and hexadecimal text *)

Lemma string_of_inj (a b : bytes) : string_of a = string_of b -> a = b.
Proof.
  unfold string_of. intros H.
  rewrite <- (list_byte_of_string_of_list_byte a), H.
  apply list_byte_of_string_of_list_byte.
Qed.

Lemma string_of_bytes_of (s : string) : string_of (bytes_of s) = s.
Proof. apply string_of_list_byte_of_string. Qed.

Lemma bytes_of_inj (a b : string) : bytes_of a = bytes_of b -> a = b.
Proof.
  intros H. rewrite <- (string_of_bytes_of a), H. apply string_of_bytes_of.
Qed.

(** The two digits of a byte decode to that byte. *)
Lemma hex_digits_of_byte (v : byte) :
  hex.fromHexChar (hex.hexdigit (Z.shiftr (Z_of_byte v) 4))
    = Some (Z.shiftr (Z_of_byte v) 4)
  /\ hex.fromHexChar (hex.hexdigit (Z.land (Z_of_byte v) 15))
    = Some (Z.land (Z_of_byte v) 15)
  /\ byte_of_Z (Z.lor (Z.shiftl (Z.shiftr (Z_of_byte v) 4) 4)
                      (Z.land (Z_of_byte v) 15)) = v.
Proof. destruct v; vm_compute; auto. Qed.

Lemma hex_decoded_encoded (src : bytes) :
  hex.decoded (hex.encoded src) = (src, None).
Proof.
  induction src as [|v src IH]; [reflexivity|].
  destruct (hex_digits_of_byte v) as (Hhi & Hlo & Hv).
  cbn [hex.encoded hex.decoded]. rewrite Hhi, Hlo, IH, Hv. reflexivity.
Qed.

Lemma hex_encoded_length (src : bytes) :
  length (hex.encoded src) = (2 * length src)%nat.
Proof. induction src as [|v src IH]; cbn [hex.encoded length]; lia. Qed.

Lemma hex_encoded_inj (a b : bytes) : hex.encoded a = hex.encoded b -> a = b.
Proof.
  intros H. pose proof (hex_decoded_encoded a) as Ha.
  rewrite H, hex_decoded_encoded in Ha. congruence.
Qed.

Lemma overwrite_zeros (w : bytes) : hex.overwrite (make_bytes (length w)) w = w.
Proof.
  unfold hex.overwrite, make_bytes.
  rewrite skipn_all2 by (rewrite repeat_length; lia). apply app_nil_r.
Qed.

(** ** SHA-256 and HMAC on the vectors of their standards *)

Example K_first_last :
  sha256.K !! 0%nat = Some 0x428a2f98 /\ sha256.K !! 63%nat = Some 0xc67178f2
  /\ length sha256.K = 64%nat.
Proof. repeat split. Qed.

Example Sum256_abc :
  string_of (hex.encoded (sha256.Sum256 (bytes_of "abc")))
  = "ba7816bf8f01cfea414140de5dae2223b00361a396177a9cb410ff61f20015ad".
Proof. vm_compute. reflexivity. Qed.

Example hmac_rfc4231_2 :
  string_of (hex.encoded
    (hmac.Sum (bytes_of "Jefe")
              [bytes_of "what do ya want "; bytes_of "for nothing?"]))
  = "5bdcc146bf60754e6a042426089575c75a003f089d2739839dec58b964ec3843".
Proof. vm_compute. reflexivity. Qed.

(** ** The MAC has the size the encoder allots *)

Lemma Sum256_length (msg : bytes) : length (sha256.Sum256 msg) = 32%nat.
Proof. reflexivity. Qed.

Lemma hmac_Sum_length (key : bytes) (parts : list bytes) :
  length (hmac.Sum key parts) = 32%nat.
Proof. apply Sum256_length. Qed.

(** ** The codec *)

Arguments hmac.Sum : simpl never.
Arguments hex.encoded : simpl never.
Arguments bytes_of : simpl never.
Arguments string_of : simpl never.

Section CodecProperties.

Context {J : JsonLib}.

Lemma is_delimiter (p : bytes) :
  bool_decide (string_of p = "<IDS|MSG>") = bool_decide (p = delimiter).
Proof.
  apply bool_decide_ext. unfold delimiter. split.
  - intros H. apply string_of_inj. rewrite H. symmetry. apply string_of_bytes_of.
  - intros ->. apply string_of_bytes_of.
Qed.

Lemma scan_found (rest : list bytes) (i : nat) :
  scan (delimiter :: rest) i = Returns i.
Proof.
  cbn [scan]. rewrite is_delimiter, bool_decide_eq_true_2; reflexivity.
Qed.

Lemma scan_skip (ids rest : list bytes) (i : nat) :
  Forall (fun f => f ≠ delimiter) ids ->
  scan (ids ++ rest) i = scan rest (i + length ids).
Proof.
  intros H. revert i. induction H as [|f ids Hf _ IH]; intros i.
  - cbn. f_equal. lia.
  - cbn [app scan length]. rewrite is_delimiter, bool_decide_eq_false_2 by exact Hf.
    rewrite IH. f_equal. lia.
Qed.

Lemma scan_absent (parts : list bytes) (i : nat) :
  Forall (fun f => f ≠ delimiter) parts ->
  scan parts i = Panics IndexOutOfRange.
Proof.
  intros H. rewrite <- (app_nil_r parts), scan_skip by exact H. reflexivity.
Qed.

Lemma lookup_after {A} (ids l : list A) (k : nat) :
  (ids ++ l) !! (length ids + k)%nat = l !! k.
Proof. induction ids as [|x ids IH]; [reflexivity | exact IH]. Qed.

Lemma skipn_after {A} (ids l : list A) (k : nat) :
  skipn (length ids + k) (ids ++ l) = skipn k l.
Proof. induction ids as [|x ids IH]; [reflexivity | exact IH]. Qed.

Lemma firstn_before {A} (ids l : list A) : firstn (length ids) (ids ++ l) = ids.
Proof. induction ids as [|x ids IH]; [reflexivity | cbn; f_equal; exact IH]. Qed.

Lemma index_after (ids l sp : list bytes) (k : nat) (x : bytes) :
  l !! k = Some x ->
  index (Slice (ids ++ l) sp) (length ids + k) = Returns x.
Proof. intros H. unfold index. cbn [live]. rewrite lookup_after, H. reflexivity. Qed.

Lemma index_beyond (s : slice) (k : nat) :
  (len s <= k)%nat -> index s k = Panics IndexOutOfRange.
Proof.
  intros H. unfold index. rewrite (lookup_ge_None_2 (live s) k); [reflexivity | exact H].
Qed.

Lemma index_cases (s : slice) (k : nat) :
  (exists x, index s k = Returns x) \/ index s k = Panics IndexOutOfRange.
Proof. unfold index. destruct (live s !! k); eauto. Qed.

(** With all six frames after the identities in place, [unmarshal_parts]
    returns what the four [Unmarshal] calls leave in the fields. *)
Lemma unmarshal_parts_envelope (ids : list bytes) (d sig f1 f2 f3 f4 : bytes)
    (rest sp : list bytes) (identities : list bytes) :
  unmarshal_parts (Slice (ids ++ d :: sig :: f1 :: f2 :: f3 :: f4 :: rest) sp)
                  (length ids) identities
  = Returns (parsed f1 f2 f3 f4, identities, None).
Proof.
  unfold unmarshal_parts.
  rewrite (index_after ids _ sp 2 f1), (index_after ids _ sp 3 f2),
    (index_after ids _ sp 4 f3), (index_after ids _ sp 5 f4) by reflexivity.
  reflexivity.
Qed.

Lemma reslice_envelope (ids : list bytes) (d sig f1 f2 f3 f4 : bytes)
    (rest sp : list bytes) :
  reslice (Slice (ids ++ d :: sig :: f1 :: f2 :: f3 :: f4 :: rest) sp)
          (length ids + 2) (length ids + 6)
  = Returns [f1; f2; f3; f4].
Proof.
  unfold reslice, cap. cbn [live spare].
  replace ((length ids + 2 <=? length ids + 6)%nat) with true
    by (symmetry; apply Nat.leb_le; lia).
  replace ((length ids + 6 <=?
            length (ids ++ d :: sig :: f1 :: f2 :: f3 :: f4 :: rest)
            + length sp)%nat) with true
    by (symmetry; apply Nat.leb_le; rewrite length_app; cbn [length]; lia).
  cbn [andb]. rewrite <- app_assoc, skipn_after.
  replace (length ids + 6 - (length ids + 2))%nat with 4%nat by lia.
  reflexivity.
Qed.

(** The decoder on an envelope: identities without the delimiter, the
    delimiter, a signature frame, four frames, anything after them. *)
Lemma decode_envelope (ids : list bytes) (sig f1 f2 f3 f4 : bytes)
    (rest sp : list bytes) (signkey : bytes) :
  Forall (fun f => f ≠ delimiter) ids ->
  WireMsgToComposedMsg
    (Slice (ids ++ delimiter :: sig :: f1 :: f2 :: f3 :: f4 :: rest) sp)
    signkey
  = if bool_decide (length signkey ≠ 0%nat)
       && negb (hmac.Equal (hmac.Sum signkey [f1; f2; f3; f4])
                           (decode_signature sig))
    then Returns (zero_msg, [], Some InvalidSignatureError)
    else Returns (parsed f1 f2 f3 f4, ids, None).
Proof.
  intros Hids. unfold WireMsgToComposedMsg. cbn [live].
  rewrite scan_skip, scan_found by exact Hids.
  cbn [mbind outcome_bind Nat.add]. rewrite firstn_before.
  rewrite !unmarshal_parts_envelope.
  destruct (bool_decide (length signkey ≠ 0%nat)); [|reflexivity].
  rewrite reslice_envelope. cbn [mbind outcome_bind].
  rewrite (index_after ids _ sp 1 sig) by reflexivity.
  cbn [mbind outcome_bind andb]. reflexivity.
Qed.

Lemma decode_signature_encoded (mac : bytes) :
  decode_signature (hex.encoded mac) = mac.
Proof.
  unfold decode_signature, hex.Decode, hex.DecodedLen.
  rewrite hex_decoded_encoded, hex_encoded_length.
  rewrite Nat.mul_comm, Nat.div_mul by lia.
  apply overwrite_zeros.
Qed.

Lemma hex_decoded_length (src : bytes) :
  (forall out, hex.decoded src = (out, None) -> length src = (2 * length out)%nat)
  /\ (forall p out, hex.decoded (p :: src) = (out, None) ->
                    length (p :: src) = (2 * length out)%nat).
Proof.
  induction src as [|q src [IH1 IH2]]; split.
  - intros out [= <-]. reflexivity.
  - intros p out H. cbn [hex.decoded] in H.
    destruct (hex.fromHexChar p); discriminate H.
  - exact (IH2 q).
  - intros p out H. cbn [hex.decoded] in H.
    destruct (hex.fromHexChar p); [|discriminate H].
    destruct (hex.fromHexChar q); [|discriminate H].
    destruct (hex.decoded src) as [out' e] eqn:E.
    injection H as <- ->. cbn [length]. rewrite (IH1 out' eq_refl). lia.
Qed.

(** A signature frame that is hexadecimal text leaves in the buffer the
    bytes it denotes. *)
Lemma decode_signature_hex (sig out : bytes) :
  hex.decoded sig = (out, None) -> decode_signature sig = out.
Proof.
  intros H. unfold decode_signature, hex.Decode, hex.DecodedLen.
  rewrite H. cbn [fst].
  rewrite (proj1 (hex_decoded_length sig) out H).
  rewrite Nat.mul_comm, Nat.div_mul by lia. apply overwrite_zeros.
Qed.

(** The signing step returns: the buffer it makes has the size of the
    text it writes. *)
Lemma sign_returns (x0 h p m c : bytes) (signkey : bytes) :
  sign [x0; h; p; m; c] signkey
  = Returns [if bool_decide (length signkey ≠ 0%nat)
             then hex.encoded (hmac.Sum signkey [h; p; m; c]) else x0;
             h; p; m; c].
Proof.
  unfold sign.
  destruct (bool_decide (length signkey ≠ 0%nat)); [|reflexivity].
  unfold store. simpl. unfold hex_Encode, hex.Encode.
  set (mac := hmac.Sum signkey _).
  assert (Hlen : length (hex.encoded mac) = 64%nat)
    by (rewrite hex_encoded_length; unfold mac; rewrite hmac_Sum_length; reflexivity).
  change (hex.EncodedLen hmac.Size) with 64%nat.
  replace (length (make_bytes 64)) with 64%nat by reflexivity.
  rewrite <- Hlen, overwrite_zeros. reflexivity.
Qed.

(** [ToWireMsg] returns: none of its stores is out of range. *)
Lemma ToWireMsg_body_returns (msg : ComposedMsg) (signkey : bytes) :
  ToWireMsg_body msg signkey
  = Returns (frames_of msg signkey,
             mkComposedMsg (Header msg) (Parent_header msg)
                           (Some (default ∅ (Metadata msg))) (Content msg)).
Proof.
  unfold ToWireMsg_body, frames_of, signature_frame.
  assert (Hmsg : forall m : ComposedMsg,
    match Metadata m with
    | None => mkComposedMsg (Header m) (Parent_header m) (Some ∅) (Content m)
    | Some _ => m
    end = mkComposedMsg (Header m) (Parent_header m)
            (Some (default ∅ (Metadata m))) (Content m))
    by (intros [? ? [?|] ?]; reflexivity).
  rewrite Hmsg. clear Hmsg. unfold store. simpl.
  rewrite sign_returns. reflexivity.
Qed.

Lemma ToWireMsg_returns (msg : ComposedMsg) (signkey : bytes) :
  ToWireMsg msg signkey = Returns (frames_of msg signkey).
Proof. unfold ToWireMsg. rewrite ToWireMsg_body_returns. reflexivity. Qed.

End CodecProperties.

(** ** The claims on the codec, for every JSON library *)

Section Claims.

Context {J : JsonLib}.

Lemma unmarshal_parts_truncated (s : slice) (i : nat) (identities : list bytes) :
  (len s < i + 6)%nat ->
  unmarshal_parts s i identities = Panics IndexOutOfRange.
Proof.
  intros H. unfold unmarshal_parts.
  destruct (index_cases s (i + 2)) as [[x2 ->]| ->]; [|reflexivity].
  destruct (index_cases s (i + 3)) as [[x3 ->]| ->]; [|reflexivity].
  destruct (index_cases s (i + 4)) as [[x4 ->]| ->]; [|reflexivity].
  rewrite (index_beyond s (i + 5)) by lia. reflexivity.
Qed.

Lemma signature_accepted (signkey : bytes) (parts : list bytes) :
  bool_decide (length signkey ≠ 0%nat)
  && negb (hmac.Equal (hmac.Sum signkey parts)
                      (decode_signature (signature_frame signkey parts)))
  = false.
Proof.
  unfold signature_frame.
  destruct (bool_decide (length signkey ≠ 0%nat)); [|reflexivity].
  rewrite decode_signature_encoded. unfold hmac.Equal.
  rewrite bool_decide_eq_true_2; reflexivity.
Qed.

(** C1, as amended: for identity frames none of which is the delimiter
    and a message of which each field comes back from [json.Marshal]
    followed by [json.Unmarshal], the frames [SendResponse] sends decode,
    under the same key and whatever lies in the spare capacity, to a nil
    error, the same identities and the same message, an unset metadata map
    coming back as the empty map. *)
Theorem round_trip (msg : ComposedMsg) (signkey : bytes) (ids sp : list bytes) :
  Forall (fun f => f ≠ delimiter) ids ->
  (Unmarshal_header (Marshal_header (Header msg)).1 zero_header).1
    = Header msg ->
  (Unmarshal_header (Marshal_header (Parent_header msg)).1 zero_header).1
    = Parent_header msg ->
  (Unmarshal_map (Marshal_map (Some (default ∅ (Metadata msg)))).1 None).1
    = Some (default ∅ (Metadata msg)) ->
  (Unmarshal_value (Marshal_value (Content msg)).1 nil_value).1
    = Content msg ->
  exists frames,
    SendResponse_frames ids msg signkey = Returns frames
    /\ WireMsgToComposedMsg (Slice frames sp) signkey
       = Returns (mkComposedMsg (Header msg) (Parent_header msg)
                                (Some (default ∅ (Metadata msg))) (Content msg),
                  ids, None).
Proof.
  intros Hids Hh Hp Hm Hc.
  unfold SendResponse_frames. rewrite ToWireMsg_returns.
  eexists. split; [reflexivity|].
  unfold frames_of. rewrite decode_envelope by exact Hids.
  rewrite signature_accepted. unfold parsed.
  rewrite Hh, Hp, Hm, Hc. reflexivity.
Qed.

(** C2, as amended: under a non-empty key, an envelope whose signature
    frame is hexadecimal text that denotes other bytes than the HMAC-SHA256
    of its four JSON frames is refused with [InvalidSignatureError], the
    zero message and nil identities; no JSON is read, whatever the library
    would make of the frames. So it is after a change of the JSON frames
    that changes their MAC, and after a change of the signature that
    changes the value of a digit; the letter case of a digit does not
    count. *)
Theorem signature_mismatch_rejected (ids : list bytes)
    (sig denoted f1 f2 f3 f4 : bytes) (rest sp : list bytes) (signkey : bytes) :
  signkey ≠ [] ->
  Forall (fun f => f ≠ delimiter) ids ->
  hex.decoded sig = (denoted, None) ->
  denoted ≠ hmac.Sum signkey [f1; f2; f3; f4] ->
  WireMsgToComposedMsg
    (Slice (ids ++ delimiter :: sig :: f1 :: f2 :: f3 :: f4 :: rest) sp) signkey
  = Returns (zero_msg, [], Some InvalidSignatureError).
Proof.
  intros Hkey Hids Hhex Hsig. rewrite decode_envelope by exact Hids.
  rewrite (decode_signature_hex sig denoted Hhex).
  rewrite bool_decide_eq_true_2
    by (intros Hl; apply Hkey; destruct signkey; [reflexivity | discriminate Hl]).
  unfold hmac.Equal.
  rewrite bool_decide_eq_false_2 by (intros E; apply Hsig; symmetry; exact E).
  reflexivity.
Qed.

(** C3, as amended: without a frame equal to the delimiter among the
    frames in range, the scan for it runs off the end and the call panics
    with an index out of range, under every key; no message and no error
    value is returned. *)
Theorem no_delimiter_panics (msgparts : slice) (signkey : bytes) :
  Forall (fun f => f ≠ delimiter) (live msgparts) ->
  WireMsgToComposedMsg msgparts signkey = Panics IndexOutOfRange.
Proof.
  intros H. unfold WireMsgToComposedMsg. rewrite scan_absent by exact H.
  reflexivity.
Qed.

(** C4, as amended: with fewer than five frames after the delimiter the
    call returns no message. Under the empty key it panics with an index
    out of range; under another key it panics, on the index or on the
    bounds of [msgparts[i+2:i+6]], or it returns [InvalidSignatureError]
    with the zero message, the MAC being taken over what the spare capacity
    holds. *)
Theorem truncated_envelope (ids after sp : list bytes) (signkey : bytes) :
  Forall (fun f => f ≠ delimiter) ids ->
  (length after < 5)%nat ->
  let r := WireMsgToComposedMsg (Slice (ids ++ delimiter :: after) sp) signkey in
  (signkey = [] -> r = Panics IndexOutOfRange)
  /\ (r = Panics IndexOutOfRange
      \/ r = Panics SliceBoundsOutOfRange
      \/ r = Returns (zero_msg, [], Some InvalidSignatureError)).
Proof.
  intros Hids Hlen r. subst r. unfold WireMsgToComposedMsg. cbn [live].
  rewrite scan_skip, scan_found by exact Hids.
  cbn [mbind outcome_bind Nat.add].
  set (s := Slice (ids ++ delimiter :: after) sp).
  assert (Hs : (len s < length ids + 6)%nat)
    by (unfold len, s; cbn [live]; rewrite length_app; cbn [length]; lia).
  rewrite !(unmarshal_parts_truncated s (length ids)) by exact Hs.
  split.
  - intros ->. reflexivity.
  - destruct (bool_decide (length signkey ≠ 0%nat)); [|left; reflexivity].
    unfold reslice. destruct (_ && _); [|right; left; reflexivity].
    cbn [mbind outcome_bind].
    destruct (index_cases s (length ids + 1)) as [[x ->]| ->];
      [|left; reflexivity].
    cbn [mbind outcome_bind].
    destruct (negb _); [right; right|left]; reflexivity.
Qed.

(** C5, as amended: the errors of the four [json.Unmarshal] calls are
    dropped. On an envelope with all its frames, under the empty key or
    with a signature that verifies, the call returns a nil error, the
    identities, and in each field what [json.Unmarshal] left there,
    whether or not the frame could be read. *)
Theorem unmarshal_errors_dropped (ids : list bytes) (sig f1 f2 f3 f4 : bytes)
    (rest sp : list bytes) (signkey : bytes) :
  Forall (fun f => f ≠ delimiter) ids ->
  signkey = [] \/ decode_signature sig = hmac.Sum signkey [f1; f2; f3; f4] ->
  WireMsgToComposedMsg
    (Slice (ids ++ delimiter :: sig :: f1 :: f2 :: f3 :: f4 :: rest) sp) signkey
  = Returns (mkComposedMsg (Unmarshal_header f1 zero_header).1
                           (Unmarshal_header f2 zero_header).1
                           (Unmarshal_map f3 None).1
                           (Unmarshal_value f4 nil_value).1,
             ids, None).
Proof.
  intros Hids Hsig. rewrite decode_envelope by exact Hids.
  destruct Hsig as [-> | Hsig]; [reflexivity|].
  unfold hmac.Equal.
  rewrite (bool_decide_eq_true_2
             (hmac.Sum signkey [f1; f2; f3; f4] = decode_signature sig))
    by (symmetry; exact Hsig).
  rewrite andb_false_r. reflexivity.
Qed.

(** C6: under the empty key the signature frame is not looked at: two
    envelopes that differ in it alone decode alike, and whatever the call
    returns carries a nil error; and [ToWireMsg] under the empty key
    returns five frames of which the first is empty. *)
Theorem trust_mode (ids : list bytes) (sig sig' : bytes) (rest sp : list bytes)
    (msg : ComposedMsg) :
  Forall (fun f => f ≠ delimiter) ids ->
  WireMsgToComposedMsg (Slice (ids ++ delimiter :: sig :: rest) sp) []
    = WireMsgToComposedMsg (Slice (ids ++ delimiter :: sig' :: rest) sp) []
  /\ (forall msgparts r,
        WireMsgToComposedMsg msgparts [] = Returns r -> r.2 = None)
  /\ ToWireMsg msg []
     = Returns [ []; (Marshal_header (Header msg)).1;
                 (Marshal_header (Parent_header msg)).1;
                 (Marshal_map (Some (default ∅ (Metadata msg)))).1;
                 (Marshal_value (Content msg)).1 ].
Proof.
  intros Hids. split; [|split].
  - unfold WireMsgToComposedMsg. cbn [live].
    rewrite !scan_skip, !scan_found by exact Hids.
    cbn [mbind outcome_bind Nat.add length bool_decide decide_rel].
    rewrite !firstn_before. unfold unmarshal_parts, index. cbn [live].
    rewrite !lookup_after. reflexivity.
  - intros msgparts r. unfold WireMsgToComposedMsg.
    destruct (scan (live msgparts) 0) as [i|p]; [|discriminate].
    cbn [mbind outcome_bind length]. unfold unmarshal_parts.
    destruct (index msgparts (i + 2)); [|discriminate].
    destruct (index msgparts (i + 3)); [|discriminate].
    destruct (index msgparts (i + 4)); [|discriminate].
    destruct (index msgparts (i + 5)); [|discriminate].
    cbn. intros [= <-]. reflexivity.
  - rewrite ToWireMsg_returns. reflexivity.
Qed.

(** C8: given that [json.Marshal] writes the empty map as [{}], the
    fourth frame of a message whose metadata map is nil or empty is [{}],
    under every key: the nil map is replaced by an empty one before it is
    marshalled, so the frame is never what [json.Marshal] makes of nil. *)
Theorem empty_metadata_frame (msg : ComposedMsg) (signkey : bytes) :
  (Marshal_map (Some ∅)).1 = bytes_of "{}" ->
  Metadata msg = None \/ Metadata msg = Some ∅ ->
  exists frames,
    ToWireMsg msg signkey = Returns frames
    /\ frames !! 3%nat = Some (bytes_of "{}")
    /\ frames !! 3%nat ≠ Some (bytes_of "null").
Proof.
  intros Hlib Hm. rewrite ToWireMsg_returns. eexists. split; [reflexivity|].
  assert (H : frames_of msg signkey !! 3%nat = Some (bytes_of "{}"))
    by (unfold frames_of; destruct Hm as [-> | ->]; exact (f_equal Some Hlib)).
  split; [exact H|]. rewrite H. intros E. injection E as E.
  vm_compute in E. discriminate E.
Qed.

End Claims.

(** ** The message factory *)

Lemma uuid_pieces (u : bytes) :
  u = firstn 4 u ++ firstn 2 (skipn 4 u) ++ firstn 2 (skipn 6 u)
        ++ firstn 2 (skipn 8 u) ++ skipn 10 u.
Proof.
  replace (drop 10 u) with (drop 2 (drop 8 u)) by (rewrite drop_drop; reflexivity).
  rewrite take_drop.
  replace (drop 8 u) with (drop 2 (drop 6 u)) by (rewrite drop_drop; reflexivity).
  rewrite take_drop.
  replace (drop 6 u) with (drop 2 (drop 4 u)) by (rewrite drop_drop; reflexivity).
  rewrite take_drop, take_drop. reflexivity.
Qed.

(** The text of a UUID determines its sixteen bytes. *)
Lemma uuid_String_inj (u u' : bytes) :
  length u = 16%nat -> length u' = 16%nat ->
  uuid.String u = uuid.String u' -> u = u'.
Proof.
  intros Hu Hu' H. apply string_of_inj in H.
  apply app_inj_1 in H as [HA H];
    [|rewrite !hex_encoded_length, !length_take; lia].
  apply app_inj_1 in H as [_ H]; [|reflexivity].
  apply app_inj_1 in H as [HB H];
    [|rewrite !hex_encoded_length, !length_take, !length_drop; lia].
  apply app_inj_1 in H as [_ H]; [|reflexivity].
  apply app_inj_1 in H as [HC H];
    [|rewrite !hex_encoded_length, !length_take, !length_drop; lia].
  apply app_inj_1 in H as [_ H]; [|reflexivity].
  apply app_inj_1 in H as [HD HE];
    [|rewrite !hex_encoded_length, !length_take, !length_drop; lia].
  apply app_inj_1 in HE as [_ HE]; [|reflexivity].
  apply hex_encoded_inj in HA, HB, HC, HD, HE.
  rewrite (uuid_pieces u), (uuid_pieces u'), HA, HB, HC, HD, HE. reflexivity.
Qed.

Lemma NewV4_length (rnd : bytes) : length (uuid.NewV4 rnd).1 = 16%nat.
Proof.
  assert (H : length (hex.overwrite (make_bytes 16) (firstn 16 rnd)) = 16%nat).
  { unfold hex.overwrite, make_bytes.
    rewrite length_app, length_drop, repeat_length, length_take. lia. }
  unfold uuid.NewV4. destruct (length rnd <? 16)%nat; cbn [fst]; [exact H|].
  unfold uuid.setVersion, uuid.setVariant. rewrite !length_alter. exact H.
Qed.

Section MessageFactory.

Context {J : JsonLib}.

(** C7, as amended: the message of [NewMsg] has the parent's header as
    its parent header (the four strings, copied by value: nothing in the
    new message refers to the parent), the parent's session and user name,
    the given type, a nil metadata map and nil content, and as identifier
    the text of the version-4 UUID made of the sixteen bytes read from the
    random source. Two identifiers are equal only when the UUIDs are, so
    the identifier differs from the parent's unless the parent's is the
    text of this very UUID; the code does not compare them. *)
Theorem NewMsg_correlates (msg_type : string) (parent : ComposedMsg)
    (rnd : bytes) :
  let msg := NewMsg msg_type parent rnd in
  Parent_header msg = Header parent
  /\ Session (Header msg) = Session (Header parent)
  /\ Username (Header msg) = Username (Header parent)
  /\ Msg_type (Header msg) = msg_type
  /\ Metadata msg = None
  /\ Content msg = nil_value
  /\ Msg_id (Header msg) = uuid.String (uuid.NewV4 rnd).1
  /\ (forall msg_type' parent' rnd',
        Msg_id (Header msg) = Msg_id (Header (NewMsg msg_type' parent' rnd')) ->
        (uuid.NewV4 rnd).1 = (uuid.NewV4 rnd').1)
  /\ (Msg_id (Header parent) ≠ uuid.String (uuid.NewV4 rnd).1 ->
      Msg_id (Header msg) ≠ Msg_id (Header parent)).
Proof.
  cbn. repeat split.
  - intros _ _ rnd'. apply uuid_String_inj; apply NewV4_length.
  - intros H E. apply H. symmetry. exact E.
Qed.

End MessageFactory.

(** ** The receiver of [ToWireMsg] *)

Section Receiver.

Context {J : JsonLib}.

Lemma with_metadata_map (h : heap) (msg : ComposedMsg_var) :
  wf h msg ->
  map_at (with_metadata h msg).1 (vMetadata (with_metadata h msg).2)
  = Some (default ∅ (map_at h (vMetadata msg))).
Proof.
  intros Hwf. unfold with_metadata.
  destruct (vMetadata msg) as [l|] eqn:E; cbn [fst snd vMetadata].
  - rewrite E. destruct (Hwf l E) as [m Hm]. cbn. rewrite Hm. reflexivity.
  - apply (lookup_insert_eq h (fresh (dom h))).
Qed.

Lemma with_metadata_keeps (h : heap) (msg : ComposedMsg_var) (l : loc) :
  is_Some (h !! l) -> (with_metadata h msg).1 !! l = h !! l.
Proof.
  intros Hl. unfold with_metadata. destruct (vMetadata msg); [reflexivity|].
  cbn [fst]. apply lookup_insert_ne. intros <-.
  apply (is_fresh (dom h)). apply elem_of_dom. exact Hl.
Qed.

(** The body on the heap makes the frames of the message the receiver
    stands for. *)
Lemma ToWireMsg_mem_returns (h : heap) (msg : ComposedMsg_var) (signkey : bytes) :
  wf h msg ->
  ToWireMsg_mem h msg signkey
  = Returns (frames_of (deref h msg) signkey,
             (with_metadata h msg).1, (with_metadata h msg).2).
Proof.
  intros Hwf. pose proof (with_metadata_map h msg Hwf) as Hmap.
  unfold ToWireMsg_mem, frames_of, signature_frame.
  destruct (with_metadata h msg) as [h' msg'] eqn:E.
  cbn [fst snd] in Hmap.
  assert (Hc : vContent msg' = vContent msg).
  { unfold with_metadata in E. destruct (vMetadata msg); injection E as <- <-; reflexivity. }
  unfold store. simpl. rewrite Hmap, Hc, sign_returns. reflexivity.
Qed.

(** C10: a call of [ToWireMsg] on a caller's message whose map, if any,
    is in the heap returns the frames of that message and leaves the
    caller's variable as it was, every map of the heap as it was, and so
    the message the variable stands for; a nil metadata map is still nil,
    the empty map that is marshalled in its place being a new one the
    receiver alone refers to. *)
Theorem ToWireMsg_keeps_caller (h : heap) (caller : ComposedMsg_var)
    (signkey : bytes) :
  wf h caller ->
  exists frames h',
    call_ToWireMsg h caller signkey = Returns (frames, h', caller)
    /\ (forall l, is_Some (h !! l) -> h' !! l = h !! l)
    /\ deref h' caller = deref h caller
    /\ (vMetadata caller = None ->
        Metadata (deref h' caller) = None
        /\ frames !! 3%nat = Some (Marshal_map (Some ∅)).1)
    /\ ToWireMsg (deref h caller) signkey = Returns frames.
Proof.
  intros Hwf. unfold call_ToWireMsg.
  rewrite ToWireMsg_mem_returns by exact Hwf.
  exists (frames_of (deref h caller) signkey), (with_metadata h caller).1.
  split; [reflexivity|].
  split; [intros l; apply with_metadata_keeps|].
  split; [|split].
  - unfold deref. f_equal. destruct (vMetadata caller) as [l|] eqn:E; [|reflexivity].
    cbn. apply with_metadata_keeps. exact (Hwf l E).
  - intros E. unfold deref, frames_of. rewrite E. split; reflexivity.
  - apply ToWireMsg_returns.
Qed.

End Receiver.

(** ** The JSON instance on plain text *)
















(** * Further properties of the codec *)

Section Outcomes.

Context {J : JsonLib}.

Lemma scan_found_at (parts : list bytes) (i j : nat) :
  scan parts i = Returns j ->
  exists ids after,
    parts = ids ++ delimiter :: after
    /\ j = (i + length ids)%nat
    /\ Forall (fun f => f ≠ delimiter) ids.
Proof.
  revert i. induction parts as [|p parts IH]; intros i H; [discriminate H|].
  cbn [scan] in H. rewrite is_delimiter in H.
  destruct (bool_decide (p = delimiter)) eqn:E.
  - apply bool_decide_eq_true_1 in E. subst p. injection H as <-.
    exists [], parts. split; [reflexivity|]. split; [cbn; lia | constructor].
  - apply bool_decide_eq_false_1 in E.
    destruct (IH (S i) H) as (ids & after & -> & -> & Hids).
    exists (p :: ids), after. split; [reflexivity|].
    split; [cbn [length]; lia | constructor; assumption].
Qed.

Lemma scan_outcomes (parts : list bytes) (i : nat) :
  scan parts i = Panics IndexOutOfRange \/ exists j, scan parts i = Returns j.
Proof.
  revert i. induction parts as [|p parts IH]; intros i; [left; reflexivity|].
  cbn [scan]. destruct (bool_decide _); [right; eauto | apply IH].
Qed.

Lemma key_not_empty (signkey : bytes) :
  bool_decide (length signkey ≠ 0%nat) = true -> signkey ≠ [].
Proof.
  intros H ->. apply bool_decide_eq_true_1 in H. apply H. reflexivity.
Qed.

(** With fewer than five frames after the delimiter nothing is returned
    but the signature error. *)
Lemma decode_short (ids after sp : list bytes) (signkey : bytes) :
  Forall (fun f => f ≠ delimiter) ids ->
  (length after < 5)%nat ->
  let r := WireMsgToComposedMsg (Slice (ids ++ delimiter :: after) sp) signkey in
  r = Panics IndexOutOfRange
  \/ (signkey ≠ [] /\ r = Panics SliceBoundsOutOfRange)
  \/ (signkey ≠ [] /\ r = Returns (zero_msg, [], Some InvalidSignatureError)).
Proof.
  intros Hids Hlen r. subst r. unfold WireMsgToComposedMsg. cbn [live].
  rewrite scan_skip, scan_found by exact Hids.
  cbn [mbind outcome_bind Nat.add].
  set (s := Slice (ids ++ delimiter :: after) sp).
  assert (Hs : (len s < length ids + 6)%nat)
    by (unfold len, s; cbn [live]; rewrite length_app; cbn [length]; lia).
  rewrite !(unmarshal_parts_truncated s (length ids)) by exact Hs.
  destruct (bool_decide (length signkey ≠ 0%nat)) eqn:K; [|left; reflexivity].
  apply key_not_empty in K.
  unfold reslice. destruct (_ && _); [|right; left; split; [exact K | reflexivity]].
  cbn [mbind outcome_bind].
  destruct (index_cases s (length ids + 1)) as [[x ->]| ->];
    [|left; reflexivity].
  cbn [mbind outcome_bind].
  destruct (negb _); [right; right; split; [exact K | reflexivity] | left; reflexivity].
Qed.

(** X1. Whatever the frames and the key, a call of [WireMsgToComposedMsg]
    ends in one of four ways: a panic on an index; under a non-empty key,
    a panic on the bounds of the re-slicing; under a non-empty key, the
    signature error with the zero message and nil identities; or a nil
    error, in which case the frames in range are some identities free of
    the delimiter, the delimiter and at least five frames, the identities
    returned are those before the first delimiter, and the message is
    what [json.Unmarshal] makes of the second to fifth frame after it. *)
Theorem decode_outcomes (msgparts : slice) (signkey : bytes) :
  WireMsgToComposedMsg msgparts signkey = Panics IndexOutOfRange
  \/ (signkey ≠ []
      /\ WireMsgToComposedMsg msgparts signkey = Panics SliceBoundsOutOfRange)
  \/ (signkey ≠ []
      /\ WireMsgToComposedMsg msgparts signkey
         = Returns (zero_msg, [], Some InvalidSignatureError))
  \/ (exists ids sig f1 f2 f3 f4 rest,
        live msgparts = ids ++ delimiter :: sig :: f1 :: f2 :: f3 :: f4 :: rest
        /\ Forall (fun f => f ≠ delimiter) ids
        /\ WireMsgToComposedMsg msgparts signkey
           = Returns (parsed f1 f2 f3 f4, ids, None)).
Proof.
  destruct msgparts as [l sp].
  destruct (scan_outcomes l 0) as [H | [j H]].
  - left. unfold WireMsgToComposedMsg. cbn [live]. rewrite H. reflexivity.
  - destruct (scan_found_at l 0 j H) as (ids & after & -> & _ & Hids).
    destruct after as [|sig [|f1 [|f2 [|f3 [|f4 rest]]]]];
      try (match goal with
           | |- context [Slice (ids ++ delimiter :: ?a) sp] =>
               assert (Hlen : (length a < 5)%nat) by (cbn [length]; lia);
               destruct (decode_short ids a sp signkey Hids Hlen) as [Hr|[Hr|Hr]]
           end;
           [left; exact Hr | right; left; exact Hr | right; right; left; exact Hr]).
    rewrite decode_envelope by exact Hids.
    destruct (bool_decide (length signkey ≠ 0%nat)) eqn:K; cbn [andb].
    + destruct (negb _).
      * right. right. left. split; [apply key_not_empty; exact K | reflexivity].
      * right. right. right. exists ids, sig, f1, f2, f3, f4, rest. auto.
    + right. right. right. exists ids, sig, f1, f2, f3, f4, rest. auto.
Qed.

End Outcomes.

(** ** The signature frame *)

Lemma hmac_Sum_concat (signkey : bytes) (a b : list bytes) :
  concat a = concat b -> hmac.Sum signkey a = hmac.Sum signkey b.
Proof. unfold hmac.Sum. intros ->. reflexivity. Qed.

Lemma hex_decoded_bound (src : bytes) :
  (2 * length (hex.decoded src).1 <= length src)%nat
  /\ (forall p, (2 * length (hex.decoded (p :: src)).1 <= length (p :: src))%nat).
Proof.
  induction src as [|q src [IH1 IH2]]; split.
  - cbn. lia.
  - intros p. cbn [hex.decoded]. destruct (hex.fromHexChar p); cbn; lia.
  - exact (IH2 q).
  - intros p. cbn [hex.decoded].
    destruct (hex.fromHexChar p); [|cbn; lia].
    destruct (hex.fromHexChar q); [|cbn; lia].
    destruct (hex.decoded src) as [out e]. cbn [fst length] in *. lia.
Qed.

(** The signature buffer keeps the length it was made with. *)
Lemma decode_signature_length (sig : bytes) :
  length (decode_signature sig) = (length sig / 2)%nat.
Proof.
  unfold decode_signature, hex.Decode, hex.DecodedLen.
  pose proof (proj1 (hex_decoded_bound sig)) as H.
  destruct (hex.decoded sig) as [out e]. cbn [fst] in *.
  assert (Hout : (length out <= length sig / 2)%nat)
    by (apply Nat.div_le_lower_bound; lia).
  unfold hex.overwrite, make_bytes.
  rewrite length_app, length_drop, repeat_length. lia.
Qed.

Lemma fromHexChar_to_upper (c : byte) :
  hex.fromHexChar (to_upper c) = hex.fromHexChar c.
Proof. destruct c; reflexivity. Qed.

Lemma hex_decoded_to_upper (src : bytes) :
  (hex.decoded (map to_upper src)).1 = (hex.decoded src).1
  /\ (forall p, (hex.decoded (map to_upper (p :: src))).1
                = (hex.decoded (p :: src)).1).
Proof.
  induction src as [|q src [IH1 IH2]]; split.
  - reflexivity.
  - intros p. cbn [map hex.decoded]. rewrite fromHexChar_to_upper.
    destruct (hex.fromHexChar p); reflexivity.
  - exact (IH2 q).
  - intros p. cbn [map hex.decoded]. rewrite !fromHexChar_to_upper.
    destruct (hex.fromHexChar p); [|reflexivity].
    destruct (hex.fromHexChar q); [|reflexivity].
    destruct (hex.decoded (map to_upper src)) as [out e].
    destruct (hex.decoded src) as [out' e']. cbn [fst] in *. congruence.
Qed.

Lemma decode_signature_to_upper (sig : bytes) :
  decode_signature (map to_upper sig) = decode_signature sig.
Proof.
  unfold decode_signature, hex.Decode. rewrite length_map.
  pose proof (proj1 (hex_decoded_to_upper sig)) as H.
  destruct (hex.decoded (map to_upper sig)) as [out e].
  destruct (hex.decoded sig) as [out' e']. cbn [fst] in *. congruence.
Qed.

Lemma hexdigits_lower (v : byte) :
  is_lower_hex (hex.hexdigit (Z.shiftr (Z_of_byte v) 4))
  && is_lower_hex (hex.hexdigit (Z.land (Z_of_byte v) 15)) = true.
Proof. destruct v; reflexivity. Qed.

Lemma hex_encoded_lower (src : bytes) :
  forallb is_lower_hex (hex.encoded src) = true.
Proof.
  induction src as [|v src IH]; [reflexivity|].
  change (hex.encoded (v :: src))
    with (hex.hexdigit (Z.shiftr (Z_of_byte v) 4)
            :: hex.hexdigit (Z.land (Z_of_byte v) 15) :: hex.encoded src).
  cbn [forallb]. rewrite andb_assoc, hexdigits_lower, IH. reflexivity.
Qed.

Section Signature.

Context {J : JsonLib}.

(** X2. The MAC is taken over the four JSON frames laid end to end, so
    it does not cover where one frame ends and the next begins: two
    envelopes with the same identities and signature frame whose four
    frames, joined, are the same text get the same verdict, the signature
    error for both or for neither. *)
Theorem frame_boundaries_not_signed (ids : list bytes)
    (sig f1 f2 f3 f4 g1 g2 g3 g4 : bytes) (rest sp : list bytes)
    (signkey : bytes) :
  Forall (fun f => f ≠ delimiter) ids ->
  concat [f1; f2; f3; f4] = concat [g1; g2; g3; g4] ->
  (WireMsgToComposedMsg
     (Slice (ids ++ delimiter :: sig :: f1 :: f2 :: f3 :: f4 :: rest) sp) signkey
   = Returns (zero_msg, [], Some InvalidSignatureError)
   <-> WireMsgToComposedMsg
         (Slice (ids ++ delimiter :: sig :: g1 :: g2 :: g3 :: g4 :: rest) sp)
         signkey
       = Returns (zero_msg, [], Some InvalidSignatureError)).
Proof.
  intros Hids Hcat. rewrite !decode_envelope by exact Hids.
  rewrite (hmac_Sum_concat signkey _ _ Hcat).
  destruct (_ && _); [tauto|]. split; discriminate.
Qed.

(** X3. Under a non-empty key a signature frame of fewer than 64 or more
    than 65 characters, the empty frame of an unsigned message among them,
    is refused with the signature error: the buffer it is decoded into has
    not the 32 bytes of the MAC. *)
Theorem wrong_length_signature_rejected (ids : list bytes)
    (sig f1 f2 f3 f4 : bytes) (rest sp : list bytes) (signkey : bytes) :
  signkey ≠ [] ->
  Forall (fun f => f ≠ delimiter) ids ->
  (length sig < 64 \/ 65 < length sig)%nat ->
  WireMsgToComposedMsg
    (Slice (ids ++ delimiter :: sig :: f1 :: f2 :: f3 :: f4 :: rest) sp) signkey
  = Returns (zero_msg, [], Some InvalidSignatureError).
Proof.
  intros Hkey Hids Hlen. rewrite decode_envelope by exact Hids.
  rewrite bool_decide_eq_true_2
    by (intros Hl; apply Hkey; destruct signkey; [reflexivity | discriminate Hl]).
  unfold hmac.Equal. rewrite bool_decide_eq_false_2; [reflexivity|].
  intros E. apply (f_equal (@length byte)) in E.
  rewrite hmac_Sum_length, decode_signature_length in E.
  assert (H : (length sig / 2 <> 32)%nat); [|congruence].
  destruct Hlen as [Hlen|Hlen].
  - assert ((length sig / 2 < 32)%nat); [|lia].
    apply Nat.Div0.div_lt_upper_bound. lia.
  - assert ((33 <= length sig / 2)%nat); [|lia].
    apply Nat.div_le_lower_bound; lia.
Qed.

(** X4. The letter case of the signature frame never counts: an envelope
    and the same envelope with the letters of its signature frame in
    capitals decode alike, under every key. *)
Theorem signature_case_ignored (ids : list bytes) (sig f1 f2 f3 f4 : bytes)
    (rest sp : list bytes) (signkey : bytes) :
  Forall (fun f => f ≠ delimiter) ids ->
  WireMsgToComposedMsg
    (Slice (ids ++ delimiter :: map to_upper sig :: f1 :: f2 :: f3 :: f4 :: rest)
           sp) signkey
  = WireMsgToComposedMsg
      (Slice (ids ++ delimiter :: sig :: f1 :: f2 :: f3 :: f4 :: rest) sp) signkey.
Proof.
  intros Hids. rewrite !decode_envelope by exact Hids.
  rewrite decode_signature_to_upper. reflexivity.
Qed.

(** X5. What the decoder does not look at: the frames after the content
    frame and the spare capacity change nothing; and the identities are not
    covered by the signature, other identities giving the same message
    and error with those identities. *)
Theorem frames_not_looked_at (ids ids' : list bytes) (sig f1 f2 f3 f4 : bytes)
    (rest sp : list bytes) (signkey : bytes) :
  Forall (fun f => f ≠ delimiter) ids ->
  Forall (fun f => f ≠ delimiter) ids' ->
  WireMsgToComposedMsg
    (Slice (ids ++ delimiter :: sig :: f1 :: f2 :: f3 :: f4 :: rest) sp) signkey
  = WireMsgToComposedMsg
      (Slice (ids ++ [delimiter; sig; f1; f2; f3; f4]) []) signkey
  /\ WireMsgToComposedMsg
       (Slice (ids' ++ delimiter :: sig :: f1 :: f2 :: f3 :: f4 :: rest) sp)
       signkey
     = match WireMsgToComposedMsg
               (Slice (ids ++ delimiter :: sig :: f1 :: f2 :: f3 :: f4 :: rest) sp)
               signkey with
       | Returns (msg, _, None) => Returns (msg, ids', None)
       | r => r
       end.
Proof.
  intros Hids Hids'. rewrite !decode_envelope by assumption.
  split; [reflexivity|]. destruct (_ && _); reflexivity.
Qed.

(** X6. [ToWireMsg] returns, under every key, exactly five frames. Under
    the empty key the first is empty; under another key it is 64
    characters, each a digit or a letter from [a] to [f]. *)
Theorem ToWireMsg_frames_shape (msg : ComposedMsg) (signkey : bytes) :
  exists sig h p m c,
    ToWireMsg msg signkey = Returns [sig; h; p; m; c]
    /\ (signkey = [] -> sig = [])
    /\ (signkey ≠ [] ->
        length sig = 64%nat /\ forallb is_lower_hex sig = true).
Proof.
  rewrite ToWireMsg_returns. unfold frames_of, signature_frame.
  eexists _, _, _, _, _. split; [reflexivity|]. split.
  - intros ->. reflexivity.
  - intros Hkey. rewrite bool_decide_eq_true_2
      by (intros Hl; apply Hkey; destruct signkey; [reflexivity | discriminate Hl]).
    rewrite hex_encoded_length, hmac_Sum_length, hex_encoded_lower. auto.
Qed.

(** X7. A nil metadata map and an empty one are encoded alike: the five
    frames, signature included, are the same. *)
Theorem nil_and_empty_metadata_alike (header parent_header : MsgHeader)
    (content : GoValue) (signkey : bytes) :
  ToWireMsg (mkComposedMsg header parent_header None content) signkey
  = ToWireMsg (mkComposedMsg header parent_header (Some ∅) content) signkey.
Proof. rewrite !ToWireMsg_returns. reflexivity. Qed.

End Signature.

(** ** Replies *)

(** The version digit that [setVersion] leaves in a byte. *)
Lemma version_digit (b : byte) :
  hex.hexdigit
    (Z.shiftr (Z_of_byte (byte_of_Z (Z.lor (Z.land (Z_of_byte b) 0xF)
                                            (Z.shiftl 4 4)))) 4)
  = "4"%byte.
Proof. destruct b; reflexivity. Qed.

Lemma NewV4_version (rnd : bytes) :
  (16 <= length rnd)%nat ->
  exists b, (uuid.NewV4 rnd).1 !! 6%nat
            = Some (byte_of_Z (Z.lor (Z.land (Z_of_byte b) 0xF) (Z.shiftl 4 4))).
Proof.
  intros H. unfold uuid.NewV4.
  replace (length rnd <? 16)%nat with false by (symmetry; apply Nat.ltb_ge; exact H).
  cbn [fst]. unfold uuid.setVersion.
  set (u := uuid.setVariant _).
  assert (Hu : (6 < length u)%nat).
  { unfold u, uuid.setVariant, hex.overwrite, make_bytes.
    rewrite length_alter, length_app, length_drop, repeat_length, length_take. lia. }
  destruct (lookup_lt_is_Some_2 u 6 Hu) as [b Hb].
  exists b. rewrite list_lookup_alter, Hb. reflexivity.
Qed.

(** The text of sixteen bytes: eight, four, four, four and twelve digits,
    dashes between the groups. *)
Lemma uuid_String_format (u : bytes) :
  length u = 16%nat ->
  exists d, bytes_of (uuid.String u) = d
    /\ length d = 36%nat
    /\ forallb (fun ib => if bool_decide (ib.1 ∈ [8; 13; 18; 23]%nat)
                          then Byte.eqb ib.2 "-" else is_lower_hex ib.2)
               (imap pair d) = true
    /\ d !! 14%nat
       = (fun b => hex.hexdigit (Z.shiftr (Z_of_byte b) 4)) <$> u !! 6%nat.
Proof.
  intros Hu. eexists. split; [reflexivity|].
  unfold uuid.String, bytes_of, string_of.
  rewrite list_byte_of_string_of_list_byte.
  do 17 (destruct u as [|? u]; try discriminate Hu). clear Hu.
  cbv [firstn skipn uuid.dash].
  change hex.encoded with
    (fix encoded (src : bytes) : bytes :=
       match src with
       | [] => []
       | v :: src' =>
           hex.hexdigit (Z.shiftr (Z_of_byte v) 4)
             :: hex.hexdigit (Z.land (Z_of_byte v) 15) :: encoded src'
       end).
  cbv beta iota fix. cbn [app].
  split; [reflexivity|]. split; [|reflexivity].
  cbn [imap forallb fst snd compose].
  repeat match goal with
         | |- context [is_lower_hex (hex.hexdigit (Z.shiftr (Z_of_byte ?v) 4))] =>
             let H := fresh in
             pose proof (hexdigits_lower v) as H;
             apply andb_true_iff in H as [-> ->]
         end.
  reflexivity.
Qed.

Section Replies.

Context {J : JsonLib}.

(** X8. Along a chain of replies, each made by [NewMsg] for the one
    before, the session and the user name of the first message are kept,
    whatever the types and the random bytes; and the parent header of a
    reply is the header of the message it was made for. *)
Theorem replies_keep_session (first : ComposedMsg)
    (steps : list (string * bytes)) :
  Session (Header (replies first steps)) = Session (Header first)
  /\ Username (Header (replies first steps)) = Username (Header first)
  /\ (forall msg_type rnd,
        Parent_header (replies first (steps ++ [(msg_type, rnd)]))
        = Header (replies first steps)).
Proof.
  split; [|split].
  - revert first. induction steps as [|step steps IH]; intros first;
      [reflexivity|].
    change (replies first (step :: steps))
      with (replies (NewMsg step.1 first step.2) steps).
    rewrite IH. reflexivity.
  - revert first. induction steps as [|step steps IH]; intros first;
      [reflexivity|].
    change (replies first (step :: steps))
      with (replies (NewMsg step.1 first step.2) steps).
    rewrite IH. reflexivity.
  - intros msg_type rnd. unfold replies. rewrite fold_left_app. reflexivity.
Qed.

(** X9. The identifier [NewMsg] gives is 36 characters: digits and the
    letters [a] to [f], with dashes at places 8, 13, 18 and 23; when the
    random source delivers its sixteen bytes, the digit at place 14 is the
    version, [4]. *)
Theorem Msg_id_format (msg_type : string) (parent : ComposedMsg) (rnd : bytes) :
  let id := bytes_of (Msg_id (Header (NewMsg msg_type parent rnd))) in
  length id = 36%nat
  /\ forallb (fun ib => if bool_decide (ib.1 ∈ [8; 13; 18; 23]%nat)
                        then Byte.eqb ib.2 "-" else is_lower_hex ib.2)
             (imap pair id) = true
  /\ ((16 <= length rnd)%nat -> id !! 14%nat = Some "4"%byte).
Proof.
  cbn [NewMsg Header Msg_id].
  destruct (uuid_String_format _ (NewV4_length rnd)) as (d & -> & Hlen & Hd & H14).
  split; [exact Hlen|]. split; [exact Hd|].
  intros Hrnd. destruct (NewV4_version rnd Hrnd) as [b Hb].
  rewrite H14, Hb. cbn [fmap option_fmap option_map]. rewrite version_digit.
  reflexivity.
Qed.

(** X10. [SendResponse] on a receipt with an identity always sends a whole
    message: after what was on the socket come the identities of the
    receipt, the delimiter and the five frames of [ToWireMsg] under the key
    of the receipt, and nothing panics between the sends. *)
Theorem SendResponse_sends_whole_message (sent : list bytes)
    (receipt : MsgReceipt) (msg : ComposedMsg) :
  Identities receipt ≠ [] ->
  exists sig h p m c,
    ToWireMsg msg (Sockets_Key receipt) = Returns [sig; h; p; m; c]
    /\ SendResponse sent receipt msg
       = (sent ++ Identities receipt ++ delimiter :: [sig; h; p; m; c], None).
Proof.
  intros _. unfold SendResponse. rewrite ToWireMsg_returns. unfold frames_of.
  eexists _, _, _, _, _. split; [reflexivity|].
  rewrite <- !app_assoc. reflexivity.
Qed.

Lemma unmarshal_parts_identities (s : slice) (i : nat) (identities : list bytes)
    (msg : ComposedMsg) (ids : list bytes) (err : option error) :
  unmarshal_parts s i identities = Returns (msg, ids, err) -> ids = identities.
Proof.
  unfold unmarshal_parts.
  destruct (index s (i + 2)); [|discriminate].
  destruct (index s (i + 3)); [|discriminate].
  destruct (index s (i + 4)); [|discriminate].
  destruct (index s (i + 5)); [|discriminate].
  cbn. intros [= _ <- _]. reflexivity.
Qed.

(** The identities a call returns with a nil error hold no delimiter. *)
Lemma decoded_identities_clean (msgparts : slice) (signkey : bytes)
    (msg : ComposedMsg) (ids : list bytes) :
  WireMsgToComposedMsg msgparts signkey = Returns (msg, ids, None) ->
  Forall (fun f => f ≠ delimiter) ids.
Proof.
  unfold WireMsgToComposedMsg.
  destruct (scan (live msgparts) 0) as [j|] eqn:Hscan; [|discriminate].
  destruct (scan_found_at _ _ _ Hscan) as (ids0 & after & Hl & -> & Hids).
  cbn [mbind outcome_bind Nat.add]. rewrite Hl, firstn_before.
  intros H.
  assert (ids = ids0); [|subst; exact Hids].
  destruct (bool_decide _).
  - destruct (reslice _ _ _); [|discriminate]. cbn [mbind outcome_bind] in H.
    destruct (index _ _); [|discriminate]. cbn [mbind outcome_bind] in H.
    destruct (negb _); [discriminate|].
    exact (unmarshal_parts_identities _ _ _ _ _ _ H).
  - exact (unmarshal_parts_identities _ _ _ _ _ _ H).
Qed.

(** X11. A reply reaches its requester: when a request decodes with a nil
    error to at least one identity, a reply sent by [SendResponse] on the receipt of
    that request is a sequence of frames that decodes, under the key of
    the receipt and whatever the spare capacity, with a nil error and no
    signature failure to the same identities and to what [json.Unmarshal]
    makes of the frames [json.Marshal] wrote. *)
Theorem reply_reaches_requester (request : slice) (signkey : bytes)
    (req : ComposedMsg) (ids : list bytes) (msg : ComposedMsg) (sp : list bytes) :
  WireMsgToComposedMsg request signkey = Returns (req, ids, None) ->
  ids ≠ [] ->
  exists sig h p m c,
    SendResponse [] (mkMsgReceipt req ids signkey) msg
      = (ids ++ delimiter :: [sig; h; p; m; c], None)
    /\ WireMsgToComposedMsg (Slice (ids ++ delimiter :: [sig; h; p; m; c]) sp)
                            signkey
       = Returns (parsed h p m c, ids, None).
Proof.
  intros Hreq _. apply decoded_identities_clean in Hreq.
  unfold SendResponse. cbn [Identities Sockets_Key].
  rewrite ToWireMsg_returns. unfold frames_of.
  eexists _, _, _, _, _. split.
  - rewrite <- !app_assoc. reflexivity.
  - rewrite decode_envelope by exact Hreq. rewrite signature_accepted.
    reflexivity.
Qed.

End Replies.

(** * The claims on the example of the specification

    [gojson.lib] stands for [encoding/json]; the key is [secret], the
    identities are the one frame [A1], and message [1] has the header and
    the content of the example. *)

#[local] Existing Instance gojson.lib.

(** C1, an instance of [round_trip]. *)
Lemma round_trip_example :
  exists frames,
    SendResponse_frames example.identities (example.msg "1") example.key
      = Returns frames
    /\ WireMsgToComposedMsg (Slice frames []) example.key
       = Returns (example.msg "1", example.identities, None).
Proof.
  apply (round_trip (J:=gojson.lib) (example.msg "1") example.key
                    example.identities []).
  - repeat constructor. vm_compute. discriminate.
  - vm_compute. reflexivity.
  - vm_compute. reflexivity.
  - vm_compute. reflexivity.
  - vm_compute. reflexivity.
Defined.

(** C1 fails as stated. An identity frame equal to the delimiter ends the
    scan early: the identities come back empty and the frames are read one
    place off, here into a signature error. And a message without a
    metadata map comes back with an empty one. *)
Lemma round_trip_fails :
  (frames ← SendResponse_frames [bytes_of "<IDS|MSG>"] (example.msg "1")
                                example.key;
   WireMsgToComposedMsg (Slice frames []) example.key)
  = Returns (zero_msg, [], Some InvalidSignatureError)
  /\ (frames ← SendResponse_frames example.identities example.unset_msg
                                   example.key;
      WireMsgToComposedMsg (Slice frames []) example.key)
     = Returns (example.msg "1", example.identities, None)
  /\ Metadata (example.msg "1") ≠ Metadata example.unset_msg.
Proof.
  split; [|split].
  - reflexivity.
  - reflexivity.
  - discriminate.
Qed.

(** C2, an instance of [signature_mismatch_rejected]: the envelope of
    message [1], signed under [secret], decoded under another key. *)
Lemma wrong_key_rejected :
  WireMsgToComposedMsg
    (Slice (example.envelope example.signature_1 "1") []) (bytes_of "wrong")
  = Returns (zero_msg, [], Some InvalidSignatureError).
Proof.
  apply (signature_mismatch_rejected example.identities
           example.signature_1 (hex.decoded example.signature_1).1
           (example.header_json "1") example.parent_json
           (bytes_of "{}") example.content_json [] [] (bytes_of "wrong")).
  - vm_compute. discriminate.
  - repeat constructor. vm_compute. discriminate.
  - vm_compute. reflexivity.
  - vm_compute. discriminate.
Defined.

(** C2 fails as stated. The envelope of message [1] is sent with its
    signature; bit 5 of the first byte of the signature frame is inverted,
    which turns the digit [c] into [C]; the envelope still decodes to the
    message, with a nil error. *)
Lemma changed_signature_bit_accepted :
  SendResponse_frames example.identities (example.msg "1") example.key
    = Returns (example.envelope example.signature_1 "1")
  /\ tamper (example.envelope example.signature_1 "1") 2 0 5
     ≠ example.envelope example.signature_1 "1"
  /\ WireMsgToComposedMsg
       (Slice (tamper (example.envelope example.signature_1 "1") 2 0 5) [])
       example.key
     = Returns (example.msg "1", example.identities, None).
Proof.
  split; [|split].
  - reflexivity.
  - vm_compute. discriminate.
  - reflexivity.
Qed.

(** C3, an instance of [no_delimiter_panics]: the envelope of message [1]
    without its delimiter frame. *)
Lemma no_delimiter_example :
  WireMsgToComposedMsg (J:=gojson.lib)
    (Slice (bytes_of "A1" :: skipn 2 (example.envelope example.signature_1 "1")) [])
    example.key
  = Panics IndexOutOfRange.
Proof.
  apply (no_delimiter_panics (J:=gojson.lib)).
  repeat constructor; vm_compute; discriminate.
Defined.

(** C3 fails as stated: on frames without the delimiter the call does not
    return an error, it panics; so it does on no frames at all. *)
Lemma no_delimiter_crashes :
  WireMsgToComposedMsg (J:=gojson.lib)
    (Slice [bytes_of "A1"; example.signature_1; example.header_json "1"] [])
    example.key
  = Panics IndexOutOfRange
  /\ WireMsgToComposedMsg (J:=gojson.lib) (Slice [] []) [] = Panics IndexOutOfRange.
Proof. split; reflexivity. Qed.

(** C4, an instance of [truncated_envelope]: the envelope of message [1]
    without its content frame, and no spare capacity. *)
Lemma truncated_envelope_example :
  (example.key = [] ->
   WireMsgToComposedMsg (J:=gojson.lib)
     (Slice (firstn 6 (example.envelope example.signature_1 "1")) [])
     example.key = Panics IndexOutOfRange)
  /\ (WireMsgToComposedMsg (J:=gojson.lib)
        (Slice (firstn 6 (example.envelope example.signature_1 "1")) [])
        example.key = Panics IndexOutOfRange
      \/ WireMsgToComposedMsg (J:=gojson.lib)
           (Slice (firstn 6 (example.envelope example.signature_1 "1")) [])
           example.key = Panics SliceBoundsOutOfRange
      \/ WireMsgToComposedMsg (J:=gojson.lib)
           (Slice (firstn 6 (example.envelope example.signature_1 "1")) [])
           example.key = Returns (zero_msg, [], Some InvalidSignatureError)).
Proof.
  apply (truncated_envelope (J:=gojson.lib) example.identities
           (firstn 4 (skipn 2 (example.envelope example.signature_1 "1")))
           [] example.key).
  - repeat constructor. vm_compute. discriminate.
  - vm_compute. lia.
Defined.

(** C4 fails as stated. Without its content frame the envelope of message
    [1] makes the call panic: on the index under the empty key, on the
    bounds of the re-slicing under the key; and when the slice has spare
    capacity for one more frame, the call returns the signature error. *)
Lemma truncated_envelope_crashes :
  WireMsgToComposedMsg (J:=gojson.lib)
    (Slice (firstn 6 (example.envelope example.signature_1 "1")) []) []
  = Panics IndexOutOfRange
  /\ WireMsgToComposedMsg (J:=gojson.lib)
       (Slice (firstn 6 (example.envelope example.signature_1 "1")) [])
       example.key
     = Panics SliceBoundsOutOfRange
  /\ WireMsgToComposedMsg (J:=gojson.lib)
       (Slice (firstn 6 (example.envelope example.signature_1 "1")) [[]])
       example.key
     = Returns (zero_msg, [], Some InvalidSignatureError).
Proof. repeat split; reflexivity. Qed.

(** C5, an instance of [unmarshal_errors_dropped]: under the empty key,
    the envelope of message [1] with a header frame that is no JSON. *)
Lemma unmarshal_errors_dropped_example :
  WireMsgToComposedMsg
    (Slice [bytes_of "A1"; bytes_of "<IDS|MSG>"; []; bytes_of "not json";
            example.parent_json; bytes_of "{}"; example.content_json] []) []
  = Returns (mkComposedMsg
               (Unmarshal_header (bytes_of "not json") zero_header).1
               (Unmarshal_header example.parent_json zero_header).1
               (Unmarshal_map (bytes_of "{}") None).1
               (Unmarshal_value example.content_json nil_value).1,
             example.identities, None).
Proof.
  apply (unmarshal_errors_dropped example.identities [] (bytes_of "not json")
           example.parent_json (bytes_of "{}") example.content_json [] [] []).
  - repeat constructor. vm_compute. discriminate.
  - left. reflexivity.
Defined.

(** C5 fails as stated. A header frame that is no JSON and a metadata
    frame that is an array, not an object, both make [json.Unmarshal]
    report an error; the call returns a nil error all the same, with the
    zero header and the nil metadata map. *)
Lemma unreadable_frames_accepted :
  (Unmarshal_header (bytes_of "not json") zero_header).2
    = Some gojson.SyntaxError
  /\ (Unmarshal_map (bytes_of "[]") None).2
     = Some (gojson.UnmarshalTypeError EmptyString)
  /\ WireMsgToComposedMsg
       (Slice [bytes_of "A1"; bytes_of "<IDS|MSG>"; []; bytes_of "not json";
               example.parent_json; bytes_of "[]"; example.content_json] []) []
     = Returns (mkComposedMsg zero_header zero_header None example.content,
                example.identities, None).
Proof. repeat split; reflexivity. Qed.

(** C6, an instance of [trust_mode]: the signature frame of the envelope
    of message [1] replaced by text that is no signature. *)
Lemma trust_mode_example :
  WireMsgToComposedMsg
    (Slice (example.envelope example.signature_1 "1") []) []
  = WireMsgToComposedMsg
      (Slice (example.envelope (bytes_of "no signature") "1") []) []
  /\ (forall msgparts r,
        WireMsgToComposedMsg msgparts [] = Returns r -> r.2 = None)
  /\ ToWireMsg (example.msg "1") []
     = Returns [ []; (Marshal_header (Header (example.msg "1"))).1;
                 (Marshal_header (Parent_header (example.msg "1"))).1;
                 (Marshal_map (Some (default ∅ (Metadata (example.msg "1"))))).1;
                 (Marshal_value (Content (example.msg "1"))).1 ].
Proof.
  apply (trust_mode example.identities example.signature_1
           (bytes_of "no signature")
           (skipn 3 (example.envelope example.signature_1 "1")) []
           (example.msg "1")).
  repeat constructor. vm_compute. discriminate.
Defined.

(** C7 fails as stated. The identifier is made of the random bytes
    alone: when the random source gives for the new message the sixteen
    bytes it gave for the parent, the new message has the identifier of
    its parent. *)
Lemma NewMsg_repeats_parent_id :
  Msg_id (Header example.parent) = "00000000-0000-4000-4000-000000000000"
  /\ Msg_id (Header (NewMsg "execute_reply" example.parent (make_bytes 16)))
     = Msg_id (Header example.parent).
Proof. split; reflexivity. Qed.

(** C8, an instance of [empty_metadata_frame]: message [1] without a
    metadata map, under the key. *)
Lemma empty_metadata_frame_example :
  exists frames,
    ToWireMsg example.unset_msg example.key = Returns frames
    /\ frames !! 3%nat = Some (bytes_of "{}")
    /\ frames !! 3%nat ≠ Some (bytes_of "null").
Proof.
  apply (empty_metadata_frame example.unset_msg example.key).
  - vm_compute. reflexivity.
  - left. reflexivity.
Defined.

(** C9 fails on the code. The MAC of message [85] ends in a zero byte. In
    its signature frame the last two digits are replaced by [zz]:
    [hex.Decode] stops there with an error, which the code drops, and the
    zero byte the buffer was made with stands for the byte that was not
    decoded. The signature passes and the message is returned. *)
Lemma non_hex_signature_accepted :
  SendResponse_frames example.identities (example.msg "85") example.key
    = Returns (example.envelope example.signature_85 "85")
  /\ (hex.Decode (make_bytes (hex.DecodedLen (length example.signature_85_zz)))
                 example.signature_85_zz).2
     = Some (hex.InvalidByteError "z")
  /\ WireMsgToComposedMsg
       (Slice (example.envelope example.signature_85_zz "85") []) example.key
     = Returns (example.msg "85", example.identities, None).
Proof. repeat split; reflexivity. Qed.

(** The like under a signature of odd length, as [hex.Decode] is modelled
    here: the thirty-two bytes are decoded before the length is found
    odd, so one more character after a good signature changes nothing. *)
Example odd_length_signature_accepted :
  (hex.decoded (example.signature_1 ++ bytes_of "0")).2 = Some hex.ErrLength
  /\ WireMsgToComposedMsg
       (Slice (example.envelope (example.signature_1 ++ bytes_of "0") "1") [])
       example.key
     = Returns (example.msg "1", example.identities, None).
Proof. split; reflexivity. Qed.

(** C10, an instance of [ToWireMsg_keeps_caller]: message [1] without a
    metadata map, in a heap without maps. *)
Lemma ToWireMsg_keeps_caller_example :
  exists frames h',
    call_ToWireMsg ∅ example.caller example.key
      = Returns (frames, h', example.caller)
    /\ (forall l, is_Some ((∅ : heap) !! l) -> h' !! l = (∅ : heap) !! l)
    /\ deref h' example.caller = deref ∅ example.caller
    /\ (vMetadata example.caller = None ->
        Metadata (deref h' example.caller) = None
        /\ frames !! 3%nat = Some (Marshal_map (Some ∅)).1)
    /\ ToWireMsg (deref ∅ example.caller) example.key = Returns frames.
Proof.
  apply (ToWireMsg_keeps_caller ∅ example.caller example.key).
  intros l. discriminate.
Defined.

(** * The further properties on the example *)

(** X2, an instance: the header and the parent header of message [1]
    sent as one frame, followed by an empty frame. *)
Lemma frame_boundaries_example :
  WireMsgToComposedMsg
    (Slice (example.envelope example.signature_1 "1") []) example.key
  = Returns (zero_msg, [], Some InvalidSignatureError)
  <-> WireMsgToComposedMsg
        (Slice [bytes_of "A1"; bytes_of "<IDS|MSG>"; example.signature_1;
                example.header_json "1" ++ example.parent_json; [];
                bytes_of "{}"; example.content_json] []) example.key
      = Returns (zero_msg, [], Some InvalidSignatureError).
Proof.
  apply (frame_boundaries_not_signed example.identities example.signature_1
           (example.header_json "1") example.parent_json (bytes_of "{}")
           example.content_json
           (example.header_json "1" ++ example.parent_json) [] (bytes_of "{}")
           example.content_json [] [] example.key).
  - repeat constructor. vm_compute. discriminate.
  - vm_compute. reflexivity.
Defined.

(** X3, an instance: the envelope of message [1] without a signature. *)
Lemma unsigned_envelope_rejected :
  WireMsgToComposedMsg (Slice (example.envelope [] "1") []) example.key
  = Returns (zero_msg, [], Some InvalidSignatureError).
Proof.
  apply (wrong_length_signature_rejected example.identities []
           (example.header_json "1") example.parent_json (bytes_of "{}")
           example.content_json [] [] example.key).
  - vm_compute. discriminate.
  - repeat constructor. vm_compute. discriminate.
  - left. vm_compute. lia.
Defined.

(** X4, an instance: the signature of message [1] in capitals. *)
Lemma signature_case_example :
  WireMsgToComposedMsg
    (Slice (example.envelope (map to_upper example.signature_1) "1") [])
    example.key
  = WireMsgToComposedMsg
      (Slice (example.envelope example.signature_1 "1") []) example.key.
Proof.
  apply (signature_case_ignored example.identities example.signature_1
           (example.header_json "1") example.parent_json (bytes_of "{}")
           example.content_json [] [] example.key).
  repeat constructor. vm_compute. discriminate.
Defined.

(** X5, an instance: the envelope of message [1] with two frames after
    it and one in the spare capacity, and under another identity. *)
Lemma frames_not_looked_at_example :
  WireMsgToComposedMsg
    (Slice (example.envelope example.signature_1 "1"
              ++ [bytes_of "more"; bytes_of "frames"]) [bytes_of "spare"])
    example.key
  = WireMsgToComposedMsg
      (Slice (example.envelope example.signature_1 "1") []) example.key
  /\ WireMsgToComposedMsg
       (Slice (bytes_of "B2" :: bytes_of "C3"
                 :: skipn 1 (example.envelope example.signature_1 "1"
                               ++ [bytes_of "more"; bytes_of "frames"]))
              [bytes_of "spare"])
       example.key
     = match WireMsgToComposedMsg
               (Slice (example.envelope example.signature_1 "1"
                         ++ [bytes_of "more"; bytes_of "frames"])
                      [bytes_of "spare"])
               example.key with
       | Returns (msg, _, None) => Returns (msg, [bytes_of "B2"; bytes_of "C3"], None)
       | r => r
       end.
Proof.
  apply (frames_not_looked_at example.identities
           [bytes_of "B2"; bytes_of "C3"] example.signature_1
           (example.header_json "1") example.parent_json (bytes_of "{}")
           example.content_json [bytes_of "more"; bytes_of "frames"]
           [bytes_of "spare"] example.key).
  - repeat constructor. vm_compute. discriminate.
  - repeat constructor; vm_compute; discriminate.
Defined.

(** X10, an instance: the receipt of message [1] and a reply to it. *)
Lemma SendResponse_example :
  exists sig h p m c,
    ToWireMsg (NewMsg "execute_reply" (example.msg "1") (make_bytes 16))
              example.key
      = Returns [sig; h; p; m; c]
    /\ SendResponse [] (mkMsgReceipt (example.msg "1") example.identities
                                     example.key)
                    (NewMsg "execute_reply" (example.msg "1") (make_bytes 16))
       = ([] ++ example.identities ++ delimiter :: [sig; h; p; m; c], None).
Proof.
  apply (SendResponse_sends_whole_message []
           (mkMsgReceipt (example.msg "1") example.identities example.key)
           (NewMsg "execute_reply" (example.msg "1") (make_bytes 16))).
  discriminate.
Defined.

(** X11, an instance: the envelope of message [1] is received and a reply
    is sent on its receipt. *)
Lemma reply_reaches_requester_example :
  exists sig h p m c,
    SendResponse [] (mkMsgReceipt (example.msg "1") example.identities
                                  example.key)
                 (NewMsg "execute_reply" (example.msg "1") (make_bytes 16))
      = (example.identities ++ delimiter :: [sig; h; p; m; c], None)
    /\ WireMsgToComposedMsg
         (Slice (example.identities ++ delimiter :: [sig; h; p; m; c]) [])
         example.key
       = Returns (parsed h p m c, example.identities, None).
Proof.
  apply (reply_reaches_requester
           (Slice (example.envelope example.signature_1 "1") []) example.key
           (example.msg "1") example.identities
           (NewMsg "execute_reply" (example.msg "1") (make_bytes 16)) []).
  - reflexivity.
  - discriminate.
Defined.

